(** * Verification of the multi-turn demo server and the KTO training driver

  A shallow embedding of
  - [accessory/demos/multi_turn_mm_box.py]: the inference worker's streaming
    loop, the grounding post-processing ([extract_and_color],
    [draw_box_on_image]) and the front end's handlers
    ([stream_model_output], [undo]);
  - [accessory/engine_kto.py]: the control flow of one [train_one_epoch]
    step.

  Conventions of the embedding.
  - A Python [str] is a [string]; a character is its code point, so the
    model covers the strings whose code points are below 256.
  - A Python [int] is a [Z]; [//] is [Z.div] and [%] is [Z.modulo] (both
    floor toward minus infinity, as in Python) and raise on a zero divisor.
  - A decimal literal is held by its exact value, a rational [Q]. The
    [float] arithmetic on coordinates is that of IEEE 754 binary64, round
    to nearest with ties to even, as [SpecFloat] defines it.
  - A raised exception is the left injection of a sum; a queue is the list
    of the values waiting in it, oldest first. *)

From Stdlib Require Import ZArith List Bool Ascii String QArith Lia SpecFloat.
Import ListNotations.

Open Scope string_scope.

(** ** Python's string primitives *)

Module PyStr.

Definition LF : ascii := "010"%char.
Definition NL : string := String LF "".

(** [str.isspace] on one character, which is also the class [\s] of [re]
    for a [str] pattern: TAB..CR, FS..US, SPACE, NEL and NBSP. *)
Definition isspace (c : ascii) : bool :=
  let n := N_of_ascii c in
  (((9 <=? n) && (n <=? 13)) || ((28 <=? n) && (n <=? 32))
   || (n =? 133) || (n =? 160))%N.

(** The class [\d]: the decimal digits. *)
Definition isdigit (c : ascii) : bool :=
  let n := N_of_ascii c in ((48 <=? n) && (n <=? 57))%N.

(** [s.startswith(sub)] *)
Definition startswith (s sub : string) : bool := prefix sub s.

Fixpoint find_from (i : Z) (sub s : string) : Z :=
  if startswith s sub then i
  else match s with
       | "" => (-1)%Z
       | String _ s' => find_from (i + 1) sub s'
       end.

(** [s.find(sub)]: the lowest index where [sub] occurs, or [-1]. *)
Definition find (s sub : string) : Z := find_from 0 sub s.

Fixpoint take (n : nat) (s : string) : string :=
  match n, s with
  | S n', String c s' => String c (take n' s')
  | _, _ => ""
  end.

Fixpoint drop (n : nat) (s : string) : string :=
  match n, s with
  | S n', String _ s' => drop n' s'
  | _, _ => s
  end.

(** [s[:stop]]: a negative [stop] counts from the end, and every bound is
    clipped to the string. *)
Definition slice_to (s : string) (stop : Z) : string :=
  let len := Z.of_nat (length s) in
  let stop' := if (stop <? 0)%Z then Z.max 0 (len + stop) else Z.min stop len in
  take (Z.to_nat stop') s.

(** [s.rstrip()] *)
Fixpoint rstrip (s : string) : string :=
  match s with
  | "" => ""
  | String c s' =>
      match rstrip s' with
      | "" => if isspace c then "" else String c ""
      | r => String c r
      end
  end.

(** [s.replace(old, new, 1)]: only the first occurrence. *)
Definition replace_first (old new s : string) : string :=
  let p := find s old in
  if (p =? -1)%Z then s
  else take (Z.to_nat p) s ++ new ++ drop (Z.to_nat p + length old) s.

(** The scan of [s.replace(old, new)] for a non-empty [old]: [skip] counts
    the characters of the occurrence just replaced that are still to be
    passed over. *)
Fixpoint replace_scan (old new : string) (skip : nat) (s : string) : string :=
  match s with
  | "" => ""
  | String c s' =>
      match skip with
      | S k => replace_scan old new k s'
      | O => if startswith s old
             then new ++ replace_scan old new (length old - 1) s'
             else String c (replace_scan old new 0 s')
      end
  end.

(** With an empty [old], [new] goes before every character and at the end. *)
Fixpoint interleave (new s : string) : string :=
  match s with
  | "" => new
  | String c s' => new ++ String c (interleave new s')
  end.

(** [s.replace(old, new)] *)
Definition replace (old new s : string) : string :=
  match old with
  | "" => interleave new s
  | _ => replace_scan old new 0 s
  end.

End PyStr.

(** ** Exceptions *)

Module Py.

Inductive Exception : Type :=
| ValueError
| TypeError
| IndexError
| KeyError
| AttributeError
| FileNotFoundError
| ZeroDivisionError
| AssertionError
| UnidentifiedImageError
| OSError
| OverflowError.

(** A computation that returns a value or raises. *)
Definition Exc (A : Type) : Type := (Exception + A)%type.

Definition ret {A : Type} (a : A) : Exc A := inr a.
Definition raise {A : Type} (e : Exception) : Exc A := inl e.

Definition bind {A B : Type} (m : Exc A) (k : A -> Exc B) : Exc B :=
  match m with
  | inl e => inl e
  | inr a => k a
  end.

(** A list comprehension whose element expression may raise. *)
Fixpoint mapM {A B : Type} (f : A -> Exc B) (l : list A) : Exc (list B) :=
  match l with
  | [] => ret []
  | x :: l' => bind (f x) (fun y => bind (mapM f l') (fun ys => ret (y :: ys)))
  end.

End Py.

(** ** Python's [float] *)

Module Float.
Import Py.

(** A [float] is an IEEE 754 binary64 number: 53 bits of precision, and
    every operation rounds to the nearest, ties to even. *)
Definition prec : Z := 53.
Definition emax : Z := 1024.
Definition float64 : Type := spec_float.

Definition zero : float64 := S754_zero false.

Definition fadd (a b : float64) : float64 := SFadd prec emax a b.
Definition fsub (a b : float64) : float64 := SFsub prec emax a b.
Definition fmul (a b : float64) : float64 := SFmul prec emax a b.

(** [a < b] *)
Definition flt (a b : float64) : bool := SFltb a b.

Definition is_finite (a : float64) : bool :=
  match a with
  | S754_zero _ | S754_finite _ _ _ => true
  | _ => false
  end.

(** The binary64 nearest to an [int]. *)
Definition round_int (n : Z) : float64 := binary_normalize prec emax n 0 false.

(** An [int] operand of an operation with a [float] is converted; an [int]
    beyond the range of binary64 raises. *)
Definition of_int (n : Z) : Exc float64 :=
  if is_finite (round_int n) then ret (round_int n) else raise OverflowError.

(** The binary64 nearest to a rational: what [float] returns on a decimal
    literal of that value. *)
Definition of_decimal (q : Q) : float64 :=
  match Qnum q with
  | Z0 => zero
  | Zpos n =>
      SFdiv prec emax (S754_finite false n 0) (S754_finite false (Qden q) 0)
  | Zneg n =>
      SFdiv prec emax (S754_finite true n 0) (S754_finite false (Qden q) 0)
  end.

(** [a * n], [a - n] and [a + n] for a [float] and an [int]. *)
Definition mul_int (a : float64) (n : Z) : Exc float64 :=
  bind (of_int n) (fun b => ret (fmul a b)).
Definition sub_int (a : float64) (n : Z) : Exc float64 :=
  bind (of_int n) (fun b => ret (fsub a b)).
Definition add_int (a : float64) (n : Z) : Exc float64 :=
  bind (of_int n) (fun b => ret (fadd a b)).

End Float.

(** ** Grounding annotations: [extract_and_color] *)

Module Grounding.
Import PyStr Py.

(** The longest head of [s] whose characters satisfy [p], and what follows:
    a greedy starred class that nothing after it can give back. *)
Fixpoint span (p : ascii -> bool) (s : string) : string * string :=
  match s with
  | "" => ("", "")
  | String c s' =>
      if p c then let (a, b) := span p s' in (String c a, b)
      else ("", s)
  end.

(** The class [[\d.,;\s]]. *)
Definition in_list_class (c : ascii) : bool :=
  isdigit c || (c =? ".")%char || (c =? ",")%char || (c =? ";")%char
  || isspace c.

(** [<\/p>\s*(\[[\d.,;\s]*\])] matched at the head of [s]: the second group
    and what follows the match. Neither star can give a character back:
    what follows [\s*] must be a bracket and what follows the class a
    closing bracket, and neither is in the starred class. *)
Definition match_tail (s : string) : option (string * string) :=
  if startswith s "</p>" then
    let (_, s1) := span isspace (drop 4 s) in
    match s1 with
    | String c s2 =>
        if (c =? "[")%char then
          let (body, s3) := span in_list_class s2 in
          match s3 with
          | String c' s4 =>
              if (c' =? "]")%char then Some ("[" ++ body ++ "]", s4) else None
          | "" => None
          end
        else None
    | "" => None
    end
  else None.

(** The lazy group [(.*?)]: [acc] is what the group holds so far; it grows
    by one character, never a newline, each time the tail fails. *)
Fixpoint match_lazy (acc s : string) {struct s}
  : option (string * string * string) :=
  match match_tail s with
  | Some (list_str, rest) => Some (acc, list_str, rest)
  | None =>
      match s with
      | "" => None
      | String c s' =>
          if (c =? LF)%char then None
          else match_lazy (acc ++ String c "") s'
      end
  end.

(** The whole pattern matched at the head of [s]. *)
Definition match_at (s : string) : option (string * string * string) :=
  if startswith s "<p>" then match_lazy "" (drop 3 s) else None.

(** The scan of [re.findall]: leftmost matches, each search resuming where
    the last match ended; [skip] counts the characters of that match still
    to be passed over. *)
Fixpoint findall_scan (skip : nat) (s : string) : list (string * string) :=
  match s with
  | "" => []
  | String _ s' =>
      match skip with
      | S k => findall_scan k s'
      | O =>
          match match_at s with
          | Some (t, list_str, rest) =>
              (t, list_str)
                :: findall_scan (String.length s - String.length rest - 1) s'
          | None => findall_scan 0 s'
          end
      end
  end.

(** [re.findall(pattern, input_string)] *)
Definition findall (s : string) : list (string * string) := findall_scan 0 s.

(** [\d+\.\d+] matched at the head of [s]. *)
Definition match_decimal (s : string) : option (string * string) :=
  match span isdigit s with
  | (String d ds, String c s1) =>
      if (c =? ".")%char then
        match span isdigit s1 with
        | (String f fs, s2) => Some (String d ds ++ "." ++ String f fs, s2)
        | _ => None
        end
      else None
  | _ => None
  end.

Fixpoint decimals_scan (skip : nat) (s : string) : list string :=
  match s with
  | "" => []
  | String _ s' =>
      match skip with
      | S k => decimals_scan k s'
      | O =>
          match match_decimal s with
          | Some (x, rest) =>
              x :: decimals_scan (String.length s - String.length rest - 1) s'
          | None => decimals_scan 0 s'
          end
      end
  end.

(** [re.findall(r'\d+\.\d+', list_str)] *)
Definition findall_decimals (list_str : string) : list string :=
  decimals_scan 0 list_str.

Fixpoint digits_value (acc : Z) (s : string) : Z :=
  match s with
  | "" => acc
  | String c s' => digits_value (10 * acc + (Z.of_N (N_of_ascii c) - 48)) s'
  end.

Fixpoint all_digits (s : string) : bool :=
  match s with
  | "" => true
  | String c s' => isdigit c && all_digits s'
  end.

(** [float(x)] on a literal of the form digits, point, digits, which is all
    the comprehension passes; on anything else the model raises, more
    often than [float] does. *)
Definition float (x : string) : Exc Q :=
  match span isdigit x with
  | (String d ds, String c (String f fs)) =>
      if (c =? ".")%char && all_digits (String f fs)
      then ret (Qred (Qmake (digits_value 0 (String d ds ++ String f fs))
                            (Pos.pow 10 (Pos.of_nat (String.length (String f fs))))))
      else raise ValueError
  | _ => raise ValueError
  end.

Definition colors : list string := ["red"; "blue"; "green"; "purple"; "orange"].

Definition DQUOTE : string := String "034"%char "".

(** (text, float_list, color) *)
Definition Entry : Type := (string * list Q * string)%type.

Definition tagged (t : string) : string := "<p>" ++ t ++ "</p>".

Definition colored (color t : string) : string :=
  "<span style=" ++ DQUOTE ++ "color:" ++ color ++ DQUOTE ++ ">" ++ t ++ "</span>".

(** The [for match in matches] loop, with the variables it updates. *)
Fixpoint color_loop (matches : list (string * string)) (result : list Entry)
         (markdown_str : string) (color_idx : nat)
  : Exc (list Entry * string) :=
  match matches with
  | [] => ret (result, markdown_str)
  | (t, list_str) :: matches' =>
      bind (mapM float (findall_decimals list_str)) (fun float_list =>
      match nth_error colors color_idx with
      | None => raise IndexError
      | Some color =>
          let result := (result ++ [(t, float_list, color)])%list in
          let colored_text := colored color t in
          let markdown_str := replace_first (tagged t) colored_text markdown_str in
          let color_idx := ((color_idx + 1) mod List.length colors)%nat in
          color_loop matches' result markdown_str color_idx
      end)
  end.

Definition extract_and_color (input_string : string)
  : Exc (list Entry * string) :=
  color_loop (findall input_string) [] input_string 0.

End Grounding.

(** ** The messages of the two queue kinds *)

Module Protocol.

(** A record of [stream_generate], and a chunk on the response queue. *)
Record StreamChunk : Type := mkChunk {
  text : string;
  end_of_content : bool
}.

(** What the response queue carries: an instance of [Ready] or a chunk. *)
Inductive Message : Type :=
| Ready
| Chunk (c : StreamChunk).

Definition Queue (A : Type) : Type := list A.

(** [queue.put(x)] *)
Definition put {A : Type} (q : Queue A) (x : A) : Queue A := (q ++ [x])%list.

End Protocol.

(** ** The worker's streaming loop ([model_worker], the [for] over
  [model.stream_generate]) *)

Module Worker.
Import PyStr Protocol.

(** What the body of the [for] does to the loop. *)
Inductive Flow : Type :=
| Next     (* falls through, or [continue] *)
| Stop.    (* [break] *)

(** [if response_queue is not None: response_queue.put(x)] *)
Definition put_if_wired (response_queue : option (Queue Message))
           (c : StreamChunk) : option (Queue Message) :=
  match response_queue with
  | Some q => Some (put q (Chunk c))
  | None => None
  end.

(** Separator detection: the first [if] of the body. *)
Definition detect (conv_sep : string) (r : StreamChunk) : StreamChunk :=
  let end_pos := find (text r) conv_sep in
  if negb (end_pos =? -1)%Z
  then mkChunk (rstrip (slice_to (text r) end_pos) ++ NL) true
  else r.

(** One iteration on the record [stream_response]. *)
Definition stream_body (conv_sep : string) (stream_response : StreamChunk)
           (response_queue : option (Queue Message))
  : option (Queue Message) * Flow :=
  let r := detect conv_sep stream_response in
  if negb (end_of_content r) then
    if (length (text r) <? length conv_sep)%nat then (response_queue, Next)
    else
      let r' := mkChunk (slice_to (text r) (- Z.of_nat (length conv_sep)))
                        (end_of_content r) in
      (put_if_wired response_queue r', Next)
  else (put_if_wired response_queue r, Stop).

(** The [for] loop over the records the model produces. *)
Fixpoint stream_loop (conv_sep : string) (records : list StreamChunk)
         (response_queue : option (Queue Message)) : option (Queue Message) :=
  match records with
  | [] => response_queue
  | r :: rest =>
      match stream_body conv_sep r response_queue with
      | (q, Next) => stream_loop conv_sep rest q
      | (q, Stop) => q
      end
  end.

End Worker.

(** ** Box rendering: [draw_box_on_image] *)

Module Box.
Import Py Float Grounding.

(** The calls on the [ImageDraw] object, with the coordinates they are
    given. *)
Inductive DrawOp : Type :=
| Rectangle (x1 y1 x2 y2 : float64) (outline : string) (width : Z)
| Text (x y : float64) (name : string) (font_size : Z) (fill : string).

(** A picture: its size and what has been drawn on it, oldest first. *)
Record Image : Type := mkImage {
  width : Z;
  height : Z;
  drawn : list DrawOp
}.

(** What a path of the file system holds, where it holds a file: a picture
    of some size, a font, or something else. *)
Inductive File : Type :=
| Picture (w h : Z)
| Font
| Other.

Definition Files : Type := string -> option File.

(** [Image.open(img_path).convert("RGB")]: [Image.open(None)] raises, and so
    does a path that holds no file or a file that is not a picture. *)
Definition Image_open (files : Files) (img_path : option string) : Exc Image :=
  match img_path with
  | None => raise AttributeError
  | Some path =>
      match files path with
      | Some (Picture w h) => ret (mkImage w h [])
      | Some _ => raise UnidentifiedImageError
      | None => raise FileNotFoundError
      end
  end.

Definition font_path : string := "../asset/arial.ttf".

(** [ImageFont.truetype(path, 15)]: a font that cannot be opened raises. *)
Definition ImageFont_truetype (files : Files) (path : string) : Exc unit :=
  match files path with
  | Some Font => ret tt
  | _ => raise OSError
  end.

Definition draw (img : Image) (op : DrawOp) : Image :=
  mkImage (width img) (height img) (drawn img ++ [op])%list.

(** [draw.rectangle((x1, y1, x2, y2), outline=outline, width=width)]: a box
    with [x2 < x1] or [y2 < y1] is refused. The colour is taken to be one
    that [ImageColor] knows, as the five of the palette are: the parsing of
    colour names is not modelled. *)
Definition rectangle (img : Image) (x1 y1 x2 y2 : float64) (outline : string)
           (width : Z) : Exc Image :=
  if flt x2 x1 || flt y2 y1 then raise ValueError
  else ret (draw img (Rectangle x1 y1 x2 y2 outline width)).

(** [v * max_edge - origin] *)
Definition scaled (v : float64) (max_edge origin : Z) : Exc float64 :=
  bind (mul_int v max_edge) (fun p => sub_int p origin).

(** The body of the inner loop, once the four coordinates are unpacked. An
    entry holds the exact value of each literal; the [float] of the list is
    the binary64 nearest to it. *)
Definition draw_box (files : Files) (max_edge x_origin y_origin : Z)
           (name color : string) (x1 y1 x2 y2 : Q) (img : Image) : Exc Image :=
  bind (scaled (of_decimal x1) max_edge x_origin) (fun x1 =>
  bind (scaled (of_decimal y1) max_edge y_origin) (fun y1 =>
  bind (scaled (of_decimal x2) max_edge x_origin) (fun x2 =>
  bind (scaled (of_decimal y2) max_edge y_origin) (fun y2 =>
  bind (rectangle img x1 y1 x2 y2 color 2) (fun img =>
  bind (add_int x1 3) (fun x =>
  bind (add_int y1 3) (fun y =>
  bind (ImageFont_truetype files font_path) (fun _ =>
  ret (draw img (Text x y name 15 color)))))))))).

(** The inner loop, [for per_box_start in range(0, len(points_in_square), 4)]:
    unpacking a last slice of fewer than four values raises. *)
Fixpoint draw_boxes (files : Files) (max_edge x_origin y_origin : Z)
         (name color : string) (points_in_square : list Q) (img : Image)
  : Exc Image :=
  match points_in_square with
  | [] => ret img
  | x1 :: y1 :: x2 :: y2 :: rest =>
      bind (draw_box files max_edge x_origin y_origin name color x1 y1 x2 y2 img)
           (draw_boxes files max_edge x_origin y_origin name color rest)
  | _ => raise ValueError
  end.

(** The outer loop, [for name, points_in_square, color in l_name_box_color]. *)
Fixpoint draw_entries (files : Files) (max_edge x_origin y_origin : Z)
         (l_name_box_color : list Entry) (img : Image) : Exc Image :=
  match l_name_box_color with
  | [] => ret img
  | (name, points_in_square, color) :: rest =>
      bind (draw_boxes files max_edge x_origin y_origin name color
                       points_in_square img)
           (draw_entries files max_edge x_origin y_origin rest)
  end.

(** The letterbox offset [(x_origin, y_origin)]. *)
Definition origin (img : Image) : Z * Z :=
  if (width img <? height img)%Z
  then ((height img - width img) / 2, 0)%Z
  else (0, (width img - height img) / 2)%Z.

Definition draw_box_on_image (files : Files) (img_path : option string)
           (l_name_box_color : list Entry) : Exc Image :=
  bind (Image_open files img_path) (fun img =>
    let max_edge := Z.max (width img) (height img) in
    let (x_origin, y_origin) := origin img in
    draw_entries files max_edge x_origin y_origin l_name_box_color img).

End Box.

(** ** The front end: the handlers of [gradio_worker] *)

Module Orchestrator.
Import PyStr Py Protocol Grounding Box.

(** One turn [[user, bot]] of the chat; either side may be [None]. *)
Definition ChatTurn : Type := (option string * option string)%type.
Definition Conversation : Type := list ChatTurn.

(** The tuple put on a request queue. *)
Record GenerationRequest : Type := mkRequest {
  req_img_path : option string;
  req_chatbot : Conversation;
  req_max_gen_len : Z;
  req_gen_t : Q;
  req_top_p : Q;
  req_img_transform : string
}.

Definition show_user_input (msg : string) (chatbot : Conversation)
  : string * Conversation :=
  ("", (chatbot ++ [(Some msg, None)])%list).

(** [l[:stop]] on a list. *)
Definition list_slice_to {A : Type} (l : list A) (stop : Z) : list A :=
  let len := Z.of_nat (List.length l) in
  let stop' := if (stop <? 0)%Z then Z.max 0 (len + stop) else Z.min stop len in
  firstn (Z.to_nat stop') l.

Definition undo (chatbot : Conversation) : Conversation :=
  if (0 <? List.length chatbot)%nat then list_slice_to chatbot (-1) else chatbot.

Definition clear : Conversation * string := ([], "").

(** [.replace("<", "&lt;").replace(">", "&gt;")] *)
Definition escape (t : string) : string :=
  replace ">" "&gt;" (replace "<" "&lt;" t).

(** [.replace("&lt;", "<").replace("&gt;", ">")] *)
Definition unescape (t : string) : string :=
  replace "&gt;" ">" (replace "&lt;" "<" t).

(** The deep copy of the chat with both sides of every turn unescaped,
    the sides that are [None] left alone. *)
Definition chatbot_for_model (chatbot : Conversation) : Conversation :=
  map (fun turn => (option_map unescape (fst turn),
                    option_map unescape (snd turn))) chatbot.

(** What the generator does that the rest of the system can see. *)
Inductive Event : Type :=
| Received (m : Message)
| Sent (worker : nat) (r : GenerationRequest)
| Yielded (chatbot : Conversation)
          (colored_text : option (list (string * option string)))
          (boxed_image : option Image).

(** How a run of the generator ends: it returns, it raises, or it waits
    for ever in a [get] on the empty response queue. *)
Inductive Outcome : Type :=
| Returned
| Raised (e : Exception)
| Blocked.

Record Run : Type := mkRun {
  events : list Event;
  outcome : Outcome;
  response_queue : Queue Message;
  request_queues : list (Queue GenerationRequest);
  chatbot_after : Conversation
}.

Definition first (evs : list Event) (r : Run) : Run :=
  mkRun (evs ++ events r)%list (outcome r) (response_queue r)
        (request_queues r) (chatbot_after r).

(** The first [while True]: receive until an instance of [Ready] comes.
    [None] when the queue runs empty before. *)
Fixpoint wait_ready (response_queue : Queue Message)
  : list Event * option (Queue Message) :=
  match response_queue with
  | [] => ([], None)
  | content_piece :: q =>
      match content_piece with
      | Ready => ([Received content_piece], Some q)
      | Chunk _ =>
          let (evs, r) := wait_ready q in (Received content_piece :: evs, r)
      end
  end.

(** [for queue in request_queues]: every queue gets a copy of its own. *)
Fixpoint fan_out (worker : nat) (request_queues : list (Queue GenerationRequest))
         (img_path : option string) (chatbot : Conversation)
         (max_gen_len : Z) (gen_t top_p : Q) (img_transform : string)
  : list Event * list (Queue GenerationRequest) :=
  match request_queues with
  | [] => ([], [])
  | queue :: rest =>
      let r := mkRequest img_path (chatbot_for_model chatbot)
                         max_gen_len gen_t top_p img_transform in
      let (evs, qs) :=
        fan_out (S worker) rest img_path chatbot max_gen_len gen_t top_p
                img_transform in
      (Sent worker r :: evs, put queue r :: qs)
  end.

(** [chatbot[-1][1] = v] *)
Fixpoint set_last_bot (chatbot : Conversation) (v : string) : Exc Conversation :=
  match chatbot with
  | [] => raise IndexError
  | [(user, _)] => ret [(user, Some v)]
  | turn :: rest => bind (set_last_bot rest v) (fun rest' => ret (turn :: rest'))
  end.

(** The second [while True]: relay chunks up to the first one that has
    [end_of_content]. Subscripting an instance of [Ready] raises. *)
Fixpoint relay (files : Files) (img_path : option string)
         (request_queues : list (Queue GenerationRequest))
         (chatbot : Conversation) (response_queue : Queue Message) : Run :=
  match response_queue with
  | [] => mkRun [] Blocked [] request_queues chatbot
  | content_piece :: q =>
      let stop o chatbot :=
        mkRun [Received content_piece] o q request_queues chatbot in
      match content_piece with
      | Ready => stop (Raised TypeError) chatbot
      | Chunk c =>
          match set_last_bot chatbot (escape (text c)) with
          | inl e => stop (Raised e) chatbot
          | inr chatbot =>
              if end_of_content c then
                match extract_and_color (text c) with
                | inl e => stop (Raised e) chatbot
                | inr (boxed_objects, colored_piece) =>
                    match draw_box_on_image files img_path boxed_objects with
                    | inl e => stop (Raised e) chatbot
                    | inr boxed_image =>
                        mkRun [Received content_piece;
                               Yielded chatbot (Some [(colored_piece, None)])
                                       (Some boxed_image)]
                              Returned q request_queues chatbot
                    end
                end
              else
                first [Received content_piece; Yielded chatbot None None]
                      (relay files img_path request_queues chatbot q)
          end
      end
  end.

(** One user turn, run to its end by the consumer of the generator. *)
Definition stream_model_output (files : Files)
           (response_queue : Queue Message)
           (request_queues : list (Queue GenerationRequest))
           (img_path : option string) (chatbot : Conversation)
           (max_gen_len : Z) (gen_t top_p : Q) (img_transform : string) : Run :=
  match wait_ready response_queue with
  | (evs, None) => mkRun evs Blocked [] request_queues chatbot
  | (evs, Some q) =>
      let (sent, request_queues) :=
        fan_out 0 request_queues img_path chatbot max_gen_len gen_t top_p
                img_transform in
      first (evs ++ sent)%list
            (relay files img_path request_queues chatbot q)
  end.

End Orchestrator.

(** ** The training driver: one step of [train_one_epoch] *)

Module Engine.
Import Py.

(** The value of [tensor.item()]. *)
Inductive PyFloat : Type :=
| Finite (q : Q)
| PosInf
| NegInf
| NaN.

(** [math.isfinite] *)
Definition isfinite (x : PyFloat) : bool :=
  match x with
  | Finite _ => true
  | _ => false
  end.

(** [a // b] and [a % b] on integers. *)
Definition floordiv (a b : Z) : Exc Z :=
  if (b =? 0)%Z then raise ZeroDivisionError else ret (a / b)%Z.

Definition modulo (a b : Z) : Exc Z :=
  if (b =? 0)%Z then raise ZeroDivisionError else ret (a mod b)%Z.

(** The fields of [args] that the loop reads. *)
Record Args : Type := mkArgs {
  accum_iter : Z;
  precision : string;
  clip_grad : Q;
  log_steps : Z;
  save_iteration_interval : Z
}.

Section Collaborators.

(** Tensors and the operations of the loop on them. *)
Variable Tensor : Type.
Variable add : Tensor -> Tensor -> Tensor.
Variable scale : Tensor -> Q -> Tensor.
Variable div_int : Tensor -> Z -> Tensor.
Variable item : Tensor -> PyFloat.
Variable any_isinf : Tensor -> bool.

(** The model on a batch: [dpo_output] and [additional_loss_dict]. *)
Variable Batch : Type.
Record ModelOutput : Type := mkOutput {
  dpo_output : list (string * Tensor);
  additional_loss_dict : list (string * (Tensor * Q))
}.
Variable model : Batch -> ModelOutput.

(** The gradient norm that [loss_scaler] returns, if any. *)
Variable loss_scaler : Tensor -> bool -> option Q -> option Tensor.

(** What a step does to the optimizer, the model, the loggers and the
    disk. [ScaleAndStep] is the call of [loss_scaler]: the scaled
    backward pass, and the optimizer update when [update_grad]. *)
Inductive Effect : Type :=
| AdjustLearningRate (data_iter_step : Z)
| Forward (batch_data : Batch)
| PrintLoss (loss_value : PyFloat)
| ScaleAndStep (loss : Tensor) (update_grad : bool) (clip : option Q)
| PrintGradInf
| MeterGradNorm (grad_norm : Tensor)
| ZeroGrad
| Synchronize
| MeterUpdate (dpo_loss_value : PyFloat)
| LogMetrics (data_iter_step : Z)
| SaveCheckpoint (epoch iteration : Z).

(** What ends the loop early: [sys.exit(code)] or an exception. *)
Inductive Stop : Type :=
| Exit (code : Z)
| Raise (e : Exception).

(** A computation that logs effects and may stop. *)
Definition M (A : Type) : Type := (list Effect * (Stop + A))%type.

Definition pure {A : Type} (a : A) : M A := ([], inr a).

Definition andThen {A B : Type} (m : M A) (k : A -> M B) : M B :=
  match m with
  | (e1, inl s) => (e1, inl s)
  | (e1, inr a) => let (e2, r) := k a in ((e1 ++ e2)%list, r)
  end.

Definition emit (e : Effect) : M unit := ([e], inr tt).
Definition sys_exit {A : Type} (code : Z) : M A := ([], inl (Exit code)).

Definition lift {A : Type} (x : Exc A) : M A :=
  match x with
  | inl e => ([], inl (Raise e))
  | inr a => ([], inr a)
  end.

Definition when (b : bool) (m : M unit) : M unit :=
  if b then m else pure tt.

Local Notation "x <- m ;; k" := (andThen m (fun x => k))
  (at level 61, m at next level, right associativity).
Local Notation "m ;; k" := (andThen m (fun _ => k))
  (at level 61, right associativity).

(** [d[key]] *)
Fixpoint lookup {A : Type} (key : string) (d : list (string * A)) : Exc A :=
  match d with
  | [] => raise KeyError
  | (k, v) :: d' => if (k =? key)%string then ret v else lookup key d'
  end.

(** The dictionary of autocast contexts indexed by [args.precision]. *)
Definition autocast_ctx (p : string) : Exc unit :=
  if ((p =? "bf16") || (p =? "fp16") || (p =? "tf32"))%string
  then ret tt else raise KeyError.

(** [loss = loss + add_loss * weight] over the values of the
    dictionary. *)
Definition total_loss (loss : Tensor) (out : ModelOutput) : Tensor :=
  fold_left (fun l kv => add l (scale (fst (snd kv)) (snd (snd kv))))
            (additional_loss_dict out) loss.

(** The guard of the checkpoint within the epoch; [and] evaluates its
    right side only when [update_grad]. *)
Definition save_guard (args : Args) (data_iter_step : Z) (update_grad : bool)
  : Exc bool :=
  bind (floordiv (save_iteration_interval args) (accum_iter args))
       (fun n_update_per_save =>
  if update_grad then
    bind (floordiv (data_iter_step + 1) (accum_iter args)) (fun n =>
    bind (modulo n n_update_per_save) (fun r => ret (r =? 0)%Z))
  else ret false).

(** The body of the loop on one batch. *)
Definition train_step (args : Args) (epoch data_iter_step : Z)
           (batch_data : Batch) : M unit :=
  r <- lift (modulo data_iter_step (accum_iter args)) ;;
  when (r =? 0)%Z (emit (AdjustLearningRate data_iter_step)) ;;
  lift (autocast_ctx (precision args)) ;;
  emit (Forward batch_data) ;;
  let out := model batch_data in
  dpo_loss <- lift (lookup "loss" (dpo_output out)) ;;
  let loss := total_loss dpo_loss out in
  let loss_value := item loss in
  let dpo_loss_value := item dpo_loss in
  when (negb (isfinite loss_value))
       (emit (PrintLoss loss_value) ;; sys_exit 1) ;;
  let loss := div_int loss (accum_iter args) in
  r <- lift (modulo (data_iter_step + 1) (accum_iter args)) ;;
  let update_grad := (r =? 0)%Z in
  let clip := if Qle_bool (clip_grad args) 0 then None
              else Some (clip_grad args) in
  emit (ScaleAndStep loss update_grad clip) ;;
  let grad_norm := loss_scaler loss update_grad clip in
  when update_grad
       (match grad_norm with
        | None => lift (raise AssertionError)
        | Some g =>
            (if any_isinf g then emit PrintGradInf
             else emit (MeterGradNorm g)) ;;
            emit ZeroGrad
        end) ;;
  emit Synchronize ;;
  emit (MeterUpdate dpo_loss_value) ;;
  r <- lift (modulo (data_iter_step + 1) (log_steps args)) ;;
  when (r =? 0)%Z (emit (LogMetrics data_iter_step)) ;;
  save <- lift (save_guard args data_iter_step update_grad) ;;
  when save (emit (SaveCheckpoint epoch data_iter_step)).

(** The [for] loop over the batches from [data_iter_step] on. *)
Fixpoint train_loop (args : Args) (epoch data_iter_step : Z)
         (batches : list Batch) : M unit :=
  match batches with
  | [] => pure tt
  | batch_data :: rest =>
      train_step args epoch data_iter_step batch_data ;;
      train_loop args epoch (data_iter_step + 1) rest
  end.

(** The loop of [train_one_epoch]. What the function does before the loop
    ([model.train], the first [model.zero_grad]) and after it is not in the
    trace, and of the argument [data_iter_step / len(data_loader) + epoch]
    of the learning-rate call the trace keeps [data_iter_step]. *)
Definition train_one_epoch (args : Args) (epoch start_iter : Z)
           (data_loader : list Batch) : M unit :=
  train_loop args epoch start_iter data_loader.

End Collaborators.

Arguments mkOutput {Tensor}.
Arguments dpo_output {Tensor}.
Arguments additional_loss_dict {Tensor}.
Arguments AdjustLearningRate {Tensor Batch}.
Arguments Forward {Tensor Batch}.
Arguments PrintLoss {Tensor Batch}.
Arguments ScaleAndStep {Tensor Batch}.
Arguments PrintGradInf {Tensor Batch}.
Arguments MeterGradNorm {Tensor Batch}.
Arguments ZeroGrad {Tensor Batch}.
Arguments Synchronize {Tensor Batch}.
Arguments MeterUpdate {Tensor Batch}.
Arguments LogMetrics {Tensor Batch}.
Arguments SaveCheckpoint {Tensor Batch}.
Arguments pure {Tensor Batch A}.
Arguments andThen {Tensor Batch A B}.
Arguments emit {Tensor Batch}.
Arguments sys_exit {Tensor Batch A}.
Arguments lift {Tensor Batch A}.
Arguments when {Tensor Batch}.

End Engine.

(** ** Vocabulary of the statements *)

Module Vocabulary.
Import PyStr Py Float Grounding Box.

Definition occurs (sub s : string) : Prop := exists a b, s = a ++ sub ++ b.

(** [sub] occurs in [s] with [a] before it and no occurrence starts
    earlier. *)
Definition first_occurrence (sub s a b : string) : Prop :=
  s = a ++ sub ++ b /\
  forall a' b', s = a' ++ sub ++ b' -> (String.length a <= String.length a')%nat.

Definition all_space (w : string) : Prop :=
  forall a c b, w = a ++ String c b -> isspace c = true.

Definition ends_clean (r : string) : Prop :=
  forall a c, r = a ++ String c "" -> isspace c = false.

(** The colour of the match of rank [i]. *)
Definition palette (i : nat) : string := nth (i mod 5) colors "".

(** The coordinates that a bracket text holds. *)
Definition coords (list_str : string) : list Q :=
  match mapM float (findall_decimals list_str) with
  | inr float_list => float_list
  | inl _ => []
  end.

(** One entry per match, in order, coloured from rank [i] on. *)
Fixpoint entries_from (i : nat) (matches : list (string * string))
  : list Entry :=
  match matches with
  | [] => []
  | (t, list_str) :: matches' =>
      (t, coords list_str, palette i) :: entries_from (S i) matches'
  end.

(** [rewrites i matches m m']: [m'] is [m] after one rewriting per match,
    each of the first occurrence of the tagged span in the string as the
    earlier rewritings left it. *)
Inductive rewrites : nat -> list (string * string) -> string -> string -> Prop :=
| rewrites_nil (i : nat) (m : string) : rewrites i [] m m
| rewrites_cons (i : nat) (t list_str : string)
                (matches : list (string * string)) (m a b m' : string) :
    first_occurrence (tagged t) m a b ->
    rewrites (S i) matches (a ++ colored (palette i) t ++ b) m' ->
    rewrites i ((t, list_str) :: matches) m m'.

(** The runs of four coordinates of an annotation. *)
Fixpoint quads (points : list Q) : list (Q * Q * Q * Q) :=
  match points with
  | x1 :: y1 :: x2 :: y2 :: rest => (x1, y1, x2, y2) :: quads rest
  | _ => []
  end.

(** The boxes of a list of annotations. *)
Definition boxes (l : list Entry) : list (Q * Q * Q * Q) :=
  flat_map (fun e => quads (snd (fst e))) l.

(** The [int] converts to a [float]. *)
Definition fits (n : Z) : Prop := is_finite (round_int n) = true.

(** A normalized coordinate scaled by the side of the square, less the
    offset of the letterbox: a product and a difference of binary64. *)
Definition to_pixel (max_edge offset : Z) (v : Q) : float64 :=
  fsub (fmul (of_decimal v) (round_int max_edge)) (round_int offset).

(** Once mapped, the box has neither its right edge left of its left edge
    nor its bottom edge above its top edge. *)
Definition upright (max_edge x_origin y_origin : Z) (box : Q * Q * Q * Q)
  : Prop :=
  let '(x1, y1, x2, y2) := box in
  flt (to_pixel max_edge x_origin x2) (to_pixel max_edge x_origin x1) = false /\
  flt (to_pixel max_edge y_origin y2) (to_pixel max_edge y_origin y1) = false.

(** The rectangle and the label of one box. *)
Definition box_ops (max_edge x_origin y_origin : Z) (name color : string)
           (box : Q * Q * Q * Q) : list DrawOp :=
  let '(x1, y1, x2, y2) := box in
  [Rectangle (to_pixel max_edge x_origin x1) (to_pixel max_edge y_origin y1)
             (to_pixel max_edge x_origin x2) (to_pixel max_edge y_origin y2)
             color 2;
   Text (fadd (to_pixel max_edge x_origin x1) (round_int 3))
        (fadd (to_pixel max_edge y_origin y1) (round_int 3)) name 15 color].

Definition entry_ops (max_edge x_origin y_origin : Z) (e : Entry)
  : list DrawOp :=
  let '(name, points, color) := e in
  flat_map (box_ops max_edge x_origin y_origin name color) (quads points).

(** The annotation holds whole boxes only. *)
Definition whole_boxes (e : Entry) : Prop :=
  exists n, List.length (snd (fst e)) = (4 * n)%nat.

(** What drawing a box needs besides the box: the font of the labels, and a
    side and offsets that convert to [float]. *)
Definition can_draw (files : Files) (max_edge x_origin y_origin : Z) : Prop :=
  files font_path = Some Font /\
  fits max_edge /\ fits x_origin /\ fits y_origin.

(** The annotations can be drawn on a picture of [W] by [H]: they hold
    whole boxes only, and if they hold a box at all, what drawing needs is
    there and every box is upright once mapped. *)
Definition drawable (files : Files) (W H : Z) (l : list Entry) : Prop :=
  let max_edge := Z.max W H in
  let x_origin := if (W <? H)%Z then ((H - W) / 2)%Z else 0%Z in
  let y_origin := if (W <? H)%Z then 0%Z else ((W - H) / 2)%Z in
  Forall whole_boxes l /\
  (boxes l <> [] ->
   can_draw files max_edge x_origin y_origin /\
   Forall (upright max_edge x_origin y_origin) (boxes l)).

(** Each character replaced by a string. *)
Fixpoint expand (f : ascii -> string) (s : string) : string :=
  match s with
  | "" => ""
  | String c s' => f c ++ expand f s'
  end.

Definition escape_lt (c : ascii) : string :=
  if (c =? "<")%char then "&lt;" else String c "".

Definition escape_gt (c : ascii) : string :=
  if (c =? ">")%char then "&gt;" else String c "".

Definition escape_both (c : ascii) : string :=
  if (c =? "<")%char then "&lt;"
  else if (c =? ">")%char then "&gt;" else String c "".

(** No character of [w] is an angle bracket or an ampersand. *)
Fixpoint plain (w : string) : bool :=
  match w with
  | "" => true
  | String c w' =>
      negb (c =? "<")%char && negb (c =? ">")%char && negb (c =? "&")%char
      && plain w'
  end.

(** What follows the last chunk of a turn: the annotations are extracted
    and drawn. *)
Definition post_process (files : Files) (img_path : option string)
           (final_text : string) : Exc (string * Image) :=
  bind (extract_and_color final_text) (fun r =>
  bind (draw_box_on_image files img_path (fst r)) (fun boxed_image =>
  ret (snd r, boxed_image))).

End Vocabulary.

(** ** Sample inputs *)

Module Samples.
Import Py Grounding Box Orchestrator Engine.

(** A response with two annotations and a third, bare, tagged span. *)
Definition sample : string :=
  "A <p>cat</p> [0.1, 0.2,0.35;0.4] and <p>dog</p>[0.5,0.5,1.0,1.0] or <p>cat</p>.".

(** A file system in which the font of the labels is in its place and
    every other path holds a picture of [W] by [H]. *)
Definition one_picture (W H : Z) : Files :=
  fun path => if (path =? font_path)%string then Some Font
              else Some (Picture W H).

(** The request of a first turn ["hi"]. *)
Definition hello_request (img_path : option string) : GenerationRequest :=
  mkRequest img_path [(Some "hi", None)] 64 (1 # 10) (3 # 4) "padded_resize".

(** A toy instance: a batch is the loss that the model returns on it. *)
Definition toy_model (b : PyFloat) : ModelOutput PyFloat :=
  mkOutput [("loss", b)] [].

Definition toy_scaler (loss : PyFloat) (update_grad : bool) (clip : option Q)
  : option PyFloat :=
  if update_grad then Some loss else None.

Definition toy_epoch (args : Args) (epoch start : Z) (batches : list PyFloat)
  : M PyFloat PyFloat unit :=
  train_one_epoch PyFloat (fun a _ => a) (fun a _ => a) (fun a _ => a)
                  (fun a => a) (fun a => negb (isfinite a)) PyFloat
                  toy_model toy_scaler args epoch start batches.

Definition toy_args (accum save : Z) : Args :=
  mkArgs accum "bf16" 0 10 save.

End Samples.

(** ** The loop of a worker, and the start of the processes *)

Module Server.
Import PyStr Py Protocol Worker Orchestrator.

(** The head of the worker's [while True]:
    [if response_queue is not None: response_queue.put(Ready())]. *)
Definition announce (response_queue : option (Queue Message))
  : option (Queue Message) :=
  match response_queue with
  | Some q => Some (put q Ready)
  | None => None
  end.

(** Where the worker's [while True] comes to rest. *)
Inductive WorkerState : Type :=
| Waiting (response_queue : option (Queue Message))
| Died (e : Exception) (response_queue : option (Queue Message)).

(** The [while True] of [model_worker], from its head, on the requests that
    its queue is given: each iteration announces the worker, takes a request
    and streams; the loop rests in [request_queue.get()] when the requests
    are used up, the worker having announced itself once more.
    [stream_generate] stands for lines 100 to 115: the picture of the
    request is opened and transformed, the prompt is built from its
    conversation and the model produces its records; [conv_templates],
    [get_transform] and the model are not part of these sources. An
    exception there, taken to come before the first record, ends the
    process. *)
Fixpoint model_worker (conv_sep : string)
         (stream_generate : GenerationRequest -> Exc (list StreamChunk))
         (request_queue : Queue GenerationRequest)
         (response_queue : option (Queue Message)) : WorkerState :=
  let response_queue := announce response_queue in
  match request_queue with
  | [] => Waiting response_queue
  | request :: request_queue =>
      match stream_generate request with
      | inl e => Died e response_queue
      | inr records =>
          model_worker conv_sep stream_generate request_queue
                       (stream_loop conv_sep records response_queue)
      end
  end.

(** What the main block hands to a worker process. *)
Record WorkerHandle : Type := mkHandle {
  rank : nat;
  gpu_id : Z;
  has_response_queue : bool
}.

(** What the main block has set up when it calls [gradio_worker]. *)
Record Setup : Type := mkSetup {
  workers : list WorkerHandle;
  n_request_queues : nat;
  barrier_parties : nat
}.

(** The check and the default of [args.gpu_ids]. *)
Definition resolve_gpu_ids (gpu_ids : option (list Z)) (n_gpus : option Z)
  : Exc (list Z) :=
  match gpu_ids with
  | Some ids => ret ids
  | None =>
      let n_gpus := match n_gpus with Some n => n | None => 1%Z end in
      if (0 <? n_gpus)%Z
      then ret (map Z.of_nat (seq 0 (Z.to_nat n_gpus)))
      else raise AssertionError
  end.

(** [for rank, gpu_id in enumerate(args.gpu_ids)]: only rank 0 is given the
    response queue. *)
Fixpoint start_workers (rank : nat) (gpu_ids : list Z) : list WorkerHandle :=
  match gpu_ids with
  | [] => []
  | gpu_id :: rest =>
      mkHandle rank gpu_id (rank =? 0)%nat :: start_workers (S rank) rest
  end.

(** The main block up to the call of [gradio_worker]. *)
Definition main (gpu_ids : option (list Z)) (n_gpus : option Z) : Exc Setup :=
  bind (resolve_gpu_ids gpu_ids n_gpus) (fun gpu_ids =>
    let workers := start_workers 0 gpu_ids in
    ret (mkSetup workers (List.length workers) (List.length gpu_ids + 1))).

End Server.

(** * Properties *)

(** ** Facts about the string primitives *)

Section StringFacts.
Import PyStr Vocabulary.

Lemma append_nil_r (s : string) : s ++ "" = s.
Proof. induction s as [|c s IH]; simpl; [reflexivity | now rewrite IH]. Qed.

Lemma append_assoc (a b c : string) : (a ++ b) ++ c = a ++ b ++ c.
Proof. induction a as [|x a IH]; simpl; [reflexivity | now rewrite IH]. Qed.

Lemma length_append (a b : string) :
  String.length (a ++ b) = (String.length a + String.length b)%nat.
Proof. induction a as [|x a IH]; simpl; [reflexivity | now rewrite IH]. Qed.

(** Two ways of cutting one string: the shorter head is a head of the
    longer one. *)
Lemma append_split (a b c d : string) :
  a ++ b = c ++ d -> (String.length a <= String.length c)%nat ->
  exists m, c = a ++ m /\ b = m ++ d.
Proof.
  revert c. induction a as [|x a IH]; intros c H Hlen.
  - exists c. simpl in *. now split.
  - destruct c as [|y c]; simpl in Hlen; [lia|].
    simpl in H. injection H as Hxy H. subst y.
    destruct (IH c H ltac:(lia)) as [m [-> ->]].
    exists m. now split.
Qed.

Lemma startswith_true (s sub : string) :
  startswith s sub = true <-> exists r, s = sub ++ r.
Proof.
  unfold startswith. revert s.
  induction sub as [|c sub IH]; intros s.
  - split; [intros _; now exists s | intros _; now destruct s].
  - destruct s as [|d s]; simpl.
    + split; [discriminate | intros [r H]; discriminate].
    + destruct (ascii_dec c d) as [->|Hne].
      * rewrite IH. split; intros [r H]; exists r.
        -- now rewrite H.
        -- now injection H.
      * split; [discriminate|]. intros [r H]. injection H as H _.
        now elim Hne.
Qed.

Lemma startswith_nil (s : string) : startswith s "" = true.
Proof. apply startswith_true. now exists s. Qed.

Lemma find_from_unfold (i : Z) (sub s : string) :
  find_from i sub s =
    if startswith s sub then i
    else match s with
         | "" => (-1)%Z
         | String _ s' => find_from (i + 1) sub s'
         end.
Proof. destruct s; reflexivity. Qed.

Lemma find_from_first (sub s a b : string) (i : Z) :
  first_occurrence sub s a b ->
  find_from i sub s = (i + Z.of_nat (String.length a))%Z.
Proof.
  revert s i. induction a as [|c a IH]; intros s i [Hs Hmin].
  - rewrite find_from_unfold.
    replace (startswith s sub) with true.
    + simpl. lia.
    + symmetry. apply startswith_true. now exists b.
  - rewrite find_from_unfold.
    destruct (startswith s sub) eqn:Hp.
    + apply startswith_true in Hp. destruct Hp as [r Hr].
      specialize (Hmin "" r Hr). simpl in Hmin. lia.
    + subst s. simpl. rewrite (IH (a ++ sub ++ b) (i + 1)%Z).
      * cbn [String.length]. lia.
      * split; [reflexivity|]. intros a' b' H'.
        specialize (Hmin (String c a') b'). simpl in Hmin.
        rewrite H' in Hmin. specialize (Hmin eq_refl). lia.
Qed.

Lemma find_from_absent (sub s : string) (i : Z) :
  (0 <= i)%Z -> find_from i sub s = (-1)%Z -> ~ occurs sub s.
Proof.
  revert i. induction s as [|c s IH]; intros i Hi Hf [a [b H]];
    rewrite find_from_unfold in Hf.
  - destruct (startswith "" sub) eqn:Hp; [lia|].
    assert (startswith "" sub = true) as Hq.
    { apply startswith_true. exists b. destruct a; [exact H | discriminate]. }
    congruence.
  - destruct (startswith (String c s) sub) eqn:Hp; [lia|].
    destruct a as [|x a].
    + assert (startswith (String c s) sub = true) as Hq.
      { apply startswith_true. now exists b. }
      congruence.
    + simpl in H. injection H as _ H.
      apply (IH (i + 1)%Z ltac:(lia) Hf). now exists a, b.
Qed.

Lemma find_from_present (sub s : string) (i : Z) :
  (~ occurs sub s) -> find_from i sub s = (-1)%Z.
Proof.
  revert i. induction s as [|c s IH]; intros i Hno;
    rewrite find_from_unfold.
  - destruct (startswith "" sub) eqn:Hp; [|reflexivity].
    apply startswith_true in Hp. destruct Hp as [r Hr].
    elim Hno. now exists "", r.
  - destruct (startswith (String c s) sub) eqn:Hp.
    + apply startswith_true in Hp. destruct Hp as [r Hr].
      elim Hno. now exists "", r.
    + apply IH. intros [a [b H]]. apply Hno.
      exists (String c a), b. simpl. now rewrite H.
Qed.

Lemma take_append (a b : string) : take (String.length a) (a ++ b) = a.
Proof. induction a as [|c a IH]; simpl; [now destruct b | now rewrite IH]. Qed.

Lemma drop_append (a b : string) : drop (String.length a) (a ++ b) = b.
Proof. induction a as [|c a IH]; simpl; [reflexivity | exact IH]. Qed.

Lemma take_drop (n : nat) (s : string) : take n s ++ drop n s = s.
Proof.
  revert s. induction n as [|n IH]; intros [|c s]; simpl; try reflexivity.
  now rewrite IH.
Qed.

Lemma length_take (n : nat) (s : string) :
  (n <= String.length s)%nat -> String.length (take n s) = n.
Proof.
  revert s. induction n as [|n IH]; intros [|c s] H; simpl in *;
    try reflexivity; try lia.
  rewrite IH; lia.
Qed.

Lemma slice_to_nonneg (s : string) (n : nat) :
  (n <= String.length s)%nat -> slice_to s (Z.of_nat n) = take n s.
Proof.
  intros H. unfold slice_to.
  destruct (Z.ltb_spec (Z.of_nat n) 0); [lia|].
  rewrite Z.min_l by lia. now rewrite Nat2Z.id.
Qed.

(** [s[:-n]] for [0 < n <= len(s)] drops exactly the last [n] characters. *)
Lemma slice_to_neg (s : string) (n : nat) :
  (0 < n <= String.length s)%nat ->
  slice_to s (- Z.of_nat n) = take (String.length s - n) s.
Proof.
  intros H. unfold slice_to.
  destruct (Z.ltb_spec (- Z.of_nat n) 0); [|lia].
  rewrite Z.max_r by lia. f_equal. lia.
Qed.

(** [rstrip] removes the longest tail of white space and nothing else. *)
Lemma rstrip_spec (s : string) :
  exists w, s = rstrip s ++ w /\ all_space w /\ ends_clean (rstrip s).
Proof.
  induction s as [|c s [w [Hs [Hw Hr]]]].
  - exists "". simpl. split; [reflexivity|]. split.
    + intros [|x a] d b H; discriminate.
    + intros [|x a] d H; discriminate.
  - simpl. destruct (rstrip s) as [|y r] eqn:Hrs.
    + destruct (isspace c) eqn:Hc.
      * exists (String c s). split; [reflexivity|]. split.
        -- intros a d b H. destruct a as [|x a]; simpl in H.
           ++ injection H as <- _. exact Hc.
           ++ injection H as _ H. simpl in Hs. subst w. now apply (Hw a d b).
        -- intros [|x a] d H; discriminate.
      * exists w. simpl in Hs. subst w. split; [reflexivity|]. split; [exact Hw|].
        intros [|x a] d H; simpl in H.
        -- injection H as <-. exact Hc.
        -- injection H as _ H. destruct a; discriminate.
    + exists w. split; [simpl in *; congruence|]. split; [exact Hw|].
      intros [|x a] d H; simpl in H.
      * discriminate.
      * injection H as _ H. now apply (Hr a d).
Qed.

(** The primitives on the corner cases of the Python operations. *)
Example string_primitives :
  replace "" "-" "abc" = "-a-b-c-" /\
  replace_first "" "-" "abc" = "-abc" /\
  replace "aa" "b" "aaa" = "ba" /\
  slice_to "abc" (- 0) = "" /\
  slice_to "abc" (-1) = "ab" /\
  slice_to "abc" (-5) = "" /\
  find "abc" "" = 0%Z /\
  find "" "a" = (-1)%Z /\
  rstrip (" a b " ++ NL) = " a b".
Proof. repeat split; reflexivity. Qed.

End StringFacts.

(** ** The worker's streaming loop *)

Section WorkerFacts.
Import PyStr Protocol Worker Vocabulary.

Lemma find_nil (s : string) : find s "" = 0%Z.
Proof. unfold find. rewrite find_from_unfold. now rewrite startswith_nil. Qed.

(** A record that separator detection leaves open is returned as it came,
    holds no separator, and the separator is not the empty string. *)
Lemma detect_open (conv_sep : string) (r : StreamChunk) :
  end_of_content (detect conv_sep r) = false ->
  detect conv_sep r = r /\ end_of_content r = false /\
  ~ occurs conv_sep (text r) /\ (0 < String.length conv_sep)%nat.
Proof.
  unfold detect. destruct (Z.eqb_spec (find (text r) conv_sep) (-1)) as [E|E];
    simpl; [|discriminate].
  intros Hr. repeat split; try assumption.
  - now apply (find_from_absent conv_sep (text r) 0%Z).
  - destruct conv_sep; [|simpl; lia]. rewrite find_nil in E. discriminate.
Qed.

Lemma detect_closed (conv_sep : string) (r : StreamChunk) (a b : string) :
  first_occurrence conv_sep (text r) a b ->
  detect conv_sep r = mkChunk (rstrip a ++ NL) true.
Proof.
  intros Hocc. unfold detect, find.
  rewrite (find_from_first conv_sep (text r) a b 0%Z Hocc), Z.add_0_l.
  destruct (Z.eqb_spec (Z.of_nat (String.length a)) (-1)); [lia|].
  cbn [negb]. destruct Hocc as [Hs _].
  rewrite slice_to_nonneg by (rewrite Hs, length_append; lia).
  now rewrite Hs, take_append.
Qed.

(** Records that detection leaves open never end the loop. *)
Lemma stream_loop_open (conv_sep : string) (pre rest : list StreamChunk)
      (rq : option (Queue Message)) :
  Forall (fun x => end_of_content (detect conv_sep x) = false) pre ->
  stream_loop conv_sep (pre ++ rest) rq =
  stream_loop conv_sep rest (stream_loop conv_sep pre rq).
Proof.
  intros Hpre. revert rq.
  induction Hpre as [|x pre Hx _ IH]; intros rq; [reflexivity|].
  cbn [app stream_loop]. unfold stream_body. rewrite Hx. cbn [negb].
  destruct (String.length (text (detect conv_sep x)) <? String.length conv_sep)%nat;
    apply IH.
Qed.

(** C2, as the code has it: when the loop reaches a record in which the
    separator occurs, first at position [length a], the chunk it puts on the
    response queue has [end_of_content = true] and as text the prefix [a]
    with its trailing white space removed and a newline appended; that chunk
    is the last one of the request, whatever records follow. A worker that
    is not wired to the response queue puts nothing. *)
Theorem separator_ends_stream
        (conv_sep : string) (pre post : list StreamChunk) (r : StreamChunk)
        (a b : string) (rq : option (Queue Message)) :
  Forall (fun x => end_of_content (detect conv_sep x) = false) pre ->
  first_occurrence conv_sep (text r) a b ->
  stream_loop conv_sep (pre ++ r :: post) rq =
  put_if_wired (stream_loop conv_sep pre rq) (mkChunk (rstrip a ++ NL) true).
Proof.
  intros Hpre Hocc. rewrite stream_loop_open by assumption.
  cbn [stream_loop]. unfold stream_body.
  now rewrite (detect_closed conv_sep r a b Hocc).
Qed.

Lemma hi_first_occurrence : first_occurrence "###" "Hi ###" "Hi " "".
Proof.
  split; [reflexivity|]. intros a' b' H.
  destruct a' as [|x [|y [|z a']]]; simpl; try lia; discriminate.
Qed.

Lemma separator_ends_stream_witness :
  Forall (fun x => end_of_content (detect "###" x) = false)
         [mkChunk "Hi there" false] /\
  first_occurrence "###" "Hi ###" "Hi " "" /\
  stream_loop "###"
              ([mkChunk "Hi there" false] ++
               mkChunk "Hi ###" false :: [mkChunk "Hi ### x" false])
              (Some [Ready]) =
  put_if_wired (stream_loop "###" [mkChunk "Hi there" false] (Some [Ready]))
               (mkChunk (rstrip "Hi " ++ NL) true).
Proof.
  assert (Forall (fun x => end_of_content (detect "###" x) = false)
                 [mkChunk "Hi there" false]) as H1
      by (constructor; [reflexivity | constructor]).
  split; [exact H1|]. split; [exact hi_first_occurrence|].
  exact (separator_ends_stream "###" [mkChunk "Hi there" false]
           [mkChunk "Hi ### x" false] (mkChunk "Hi ###" false) "Hi " ""
           (Some [Ready]) H1 hi_first_occurrence).
Defined.

Example stream_loop_run :
  stream_loop "###"
              [mkChunk "Hi there" false; mkChunk "Hi ###" false;
               mkChunk "Hi ### x" false]
              (Some [Ready]) =
  Some [Ready; Chunk (mkChunk "Hi th" false);
        Chunk (mkChunk (String "H" (String "i" NL)) true)].
Proof. reflexivity. Qed.

(** C2 as it is worded fails: with the separator first at position 3 of
    ["Hi ###"], the emitted text is ["Hi"] and a newline, not the prefix
    ["Hi "] of length 3 and a newline. *)
Lemma separator_prefix_not_verbatim :
  first_occurrence "###" "Hi ###" "Hi " "" /\
  stream_loop "###" [mkChunk "Hi ###" false] (Some []) =
    Some [Chunk (mkChunk ("Hi" ++ NL) true)] /\
  stream_loop "###" [mkChunk "Hi ###" false] (Some []) <>
    Some [Chunk (mkChunk ("Hi " ++ NL) true)].
Proof.
  split; [exact hi_first_occurrence|]. split; [reflexivity | discriminate].
Qed.

(** C3: on a record that separator detection leaves open, the body puts
    nothing when the text is shorter than the separator; otherwise it puts
    the text without its last [len(conv_sep)] characters (when the worker is
    wired). Whatever the model appends later, the text put is a prefix of
    what precedes the first separator, so no part of a separator is sent. *)
Theorem open_record_withholds_tail
        (conv_sep : string) (r : StreamChunk) (rq : option (Queue Message)) :
  end_of_content (detect conv_sep r) = false ->
  ((String.length (text r) < String.length conv_sep)%nat ->
     stream_body conv_sep r rq = (rq, Next)) /\
  ((String.length conv_sep <= String.length (text r))%nat ->
     exists kept tail,
       text r = kept ++ tail /\
       String.length tail = String.length conv_sep /\
       stream_body conv_sep r rq = (put_if_wired rq (mkChunk kept false), Next) /\
       forall more a b,
         first_occurrence conv_sep (text r ++ more) a b ->
         exists rest, a = kept ++ rest).
Proof.
  intros Hopen.
  destruct (detect_open conv_sep r Hopen) as [Hd [Hr [Hno Hpos]]].
  unfold stream_body. rewrite Hd, Hr. cbn [negb]. split.
  - intros Hlt. apply Nat.ltb_lt in Hlt. now rewrite Hlt.
  - intros Hge.
    set (n := (String.length (text r) - String.length conv_sep)%nat).
    exists (take n (text r)), (drop n (text r)).
    assert (text r = take n (text r) ++ drop n (text r)) as Hsplit
        by (symmetry; apply take_drop).
    assert (String.length (take n (text r)) = n) as Hk
        by (apply length_take; unfold n; lia).
    split; [exact Hsplit|]. split.
    { apply (f_equal String.length) in Hsplit.
      rewrite length_append, Hk in Hsplit. unfold n in *. lia. }
    split.
    { rewrite (proj2 (Nat.ltb_ge _ _) Hge).
      rewrite slice_to_neg by lia. reflexivity. }
    intros more a b [Hs Hmin].
    assert (String.length (text r) < String.length a + String.length conv_sep)%nat
      as Hshort.
    { destruct (Nat.lt_ge_cases (String.length (text r))
                  (String.length a + String.length conv_sep)) as [Hl|Hl];
        [exact Hl|].
      exfalso. apply Hno.
      rewrite <- append_assoc in Hs. symmetry in Hs.
      destruct (append_split _ _ _ _ Hs) as [m [Hm _]].
      - rewrite length_append. lia.
      - exists a, m. now rewrite <- append_assoc. }
    rewrite Hsplit, append_assoc in Hs.
    destruct (append_split _ _ _ _ Hs) as [m [Hm _]]; [rewrite Hk; unfold n; lia|].
    now exists m.
Qed.

Lemma open_record_withholds_tail_witness :
  end_of_content (detect "###" (mkChunk "Hello wo#" false)) = false /\
  exists kept tail,
    "Hello wo#" = kept ++ tail /\ String.length tail = 3%nat /\
    stream_body "###" (mkChunk "Hello wo#" false) (Some []) =
      (Some [Chunk (mkChunk kept false)], Next).
Proof.
  split; [reflexivity|].
  destruct (open_record_withholds_tail "###" (mkChunk "Hello wo#" false)
              (Some []) eq_refl) as [_ H].
  destruct H as [kept [tail [H1 [H2 [H3 _]]]]]; [simpl; lia|].
  exists kept, tail. repeat split; assumption.
Defined.

Example stream_body_run :
  stream_body "###" (mkChunk "Hello wo#" false) (Some []) =
    (Some [Chunk (mkChunk "Hello " false)], Next) /\
  stream_body "###" (mkChunk "He" false) (Some []) = (Some [], Next).
Proof. split; reflexivity. Qed.

End WorkerFacts.

(** ** Grounding annotations *)

Section GroundingFacts.
Import PyStr Py Grounding Vocabulary Samples.

Example findall_sample :
  findall sample =
    [("cat", "[0.1, 0.2,0.35;0.4]"); ("dog", "[0.5,0.5,1.0,1.0]")].
Proof. reflexivity. Qed.

Example findall_lazy_group :
  findall "<p>a</p> x <p>a</p>[0.1]" = [("a</p> x <p>a", "[0.1]")] /\
  findall ("<p>a</p>" ++ NL ++ "<p>a</p>[0.1]") = [("a", "[0.1]")].
Proof. split; reflexivity. Qed.

Example findall_decimals_sample :
  findall_decimals "[12x3.4 1.2.3.4 .5 6. 007.250]" =
    ["3.4"; "1.2"; "3.4"; "007.250"].
Proof. reflexivity. Qed.

Lemma span_append (p : ascii -> bool) (s a b : string) :
  span p s = (a, b) -> s = a ++ b.
Proof.
  revert a b. induction s as [|c s IH]; simpl; intros a b H.
  - now injection H as <- <-.
  - destruct (p c).
    + destruct (span p s) as [a' b'] eqn:E. injection H as <- <-.
      simpl. now rewrite (IH a' b' eq_refl).
    + now injection H as <- <-.
Qed.

Lemma startswith_drop (s sub : string) :
  startswith s sub = true -> s = sub ++ drop (String.length sub) s.
Proof.
  intros H. apply startswith_true in H. destruct H as [r ->].
  now rewrite drop_append.
Qed.

Lemma match_tail_sound (s list_str rest : string) :
  match_tail s = Some (list_str, rest) ->
  exists ws, s = "</p>" ++ ws ++ list_str ++ rest.
Proof.
  unfold match_tail. destruct (startswith s "</p>") eqn:Hp; [|discriminate].
  apply startswith_drop in Hp. change (String.length "</p>") with 4%nat in Hp.
  destruct (span isspace (drop 4 s)) as [ws s1] eqn:E1.
  apply span_append in E1.
  destruct s1 as [|c s2]; [discriminate|].
  destruct (Ascii.eqb_spec c "["); [subst c|discriminate].
  destruct (span in_list_class s2) as [body s3] eqn:E2.
  apply span_append in E2.
  destruct s3 as [|c' s4]; [discriminate|].
  destruct (Ascii.eqb_spec c' "]"); [subst c'|discriminate].
  intros H. injection H as <- <-. exists ws.
  rewrite Hp at 1. rewrite E1, E2. cbn [append].
  rewrite ?append_assoc. reflexivity.
Qed.

Lemma match_lazy_sound (s acc t list_str rest : string) :
  match_lazy acc s = Some (t, list_str, rest) ->
  exists g ws, t = acc ++ g /\ s = g ++ "</p>" ++ ws ++ list_str ++ rest.
Proof.
  revert acc. induction s as [|c s IH]; intros acc; cbn [match_lazy].
  - destruct (match_tail "") as [[l r]|] eqn:E; [|discriminate].
    intros H. injection H as <- <- <-.
    destruct (match_tail_sound _ _ _ E) as [ws Hs].
    exists "", ws. now rewrite append_nil_r.
  - destruct (match_tail (String c s)) as [[l r]|] eqn:E.
    + intros H. injection H as <- <- <-.
      destruct (match_tail_sound _ _ _ E) as [ws Hs].
      exists "", ws. now rewrite append_nil_r.
    + destruct (c =? LF)%char; [discriminate|]. intros H.
      destruct (IH _ H) as [g [ws [-> ->]]].
      exists (String c g), ws. now rewrite append_assoc.
Qed.

Lemma match_at_sound (s t list_str rest : string) :
  match_at s = Some (t, list_str, rest) ->
  exists ws, s = tagged t ++ ws ++ list_str ++ rest.
Proof.
  unfold match_at. destruct (startswith s "<p>") eqn:Hp; [|discriminate].
  apply startswith_drop in Hp. change (String.length "<p>") with 3%nat in Hp.
  intros H. destruct (match_lazy_sound _ _ _ _ _ H) as [g [ws [-> Hs]]].
  exists ws. rewrite Hp, Hs. unfold tagged. cbn [append].
  now rewrite ?append_assoc.
Qed.

Lemma findall_scan_skip (k : nat) (s : string) :
  findall_scan k s = findall_scan 0 (drop k s).
Proof.
  revert k. induction s as [|c s IH]; intros [|k]; try reflexivity.
  cbn [findall_scan drop]. apply IH.
Qed.

Lemma findall_scan_unfold (c : ascii) (s : string) :
  findall_scan 0 (String c s) =
    match match_at (String c s) with
    | Some (t, list_str, rest) =>
        (t, list_str)
          :: findall_scan (String.length (String c s) - String.length rest - 1) s
    | None => findall_scan 0 s
    end.
Proof. reflexivity. Qed.

(** The first pair that [findall] returns is a match in the input, and the
    other pairs are what [findall] returns on the text after that match. *)
Lemma findall_cons (s t list_str : string) (more : list (string * string)) :
  findall s = (t, list_str) :: more ->
  exists pre ws rest,
    s = pre ++ tagged t ++ ws ++ list_str ++ rest /\ more = findall rest.
Proof.
  unfold findall. induction s as [|c s IH]; [discriminate|].
  rewrite findall_scan_unfold.
  destruct (match_at (String c s)) as [[[t' l'] rest]|] eqn:E.
  - remember (String.length (String c s) - String.length rest - 1)%nat as k
      eqn:Hk.
    intros H. injection H as -> -> <-.
    destruct (match_at_sound _ _ _ _ E) as [ws Hs].
    exists "", ws, rest. split; [exact Hs|].
    rewrite findall_scan_skip. f_equal.
    set (m := tagged t ++ ws ++ list_str).
    assert (String c s = m ++ rest) as Hm
        by (unfold m; now rewrite !append_assoc).
    assert (0 < String.length m)%nat as Hpos
        by (unfold m, tagged; rewrite !length_append; simpl; lia).
    pose proof (drop_append m rest) as Hd. rewrite <- Hm in Hd.
    pose proof (f_equal String.length Hm) as Hlen.
    rewrite length_append in Hlen.
    assert (String.length m = S k) as Hmk by lia.
    rewrite Hmk in Hd. exact Hd.
  - intros H. destruct (IH H) as [pre [ws [rest [-> ->]]]].
    now exists (String c pre), ws, rest.
Qed.

Lemma first_occurrence_exists (sub s : string) :
  occurs sub s -> exists a b, first_occurrence sub s a b.
Proof.
  induction s as [|c s IH]; intros Hocc.
  - destruct Hocc as [a [b H]].
    destruct a; [|discriminate]. exists "", b. split; [exact H|].
    intros a' b' _. simpl. lia.
  - destruct (startswith (String c s) sub) eqn:Hp.
    + apply startswith_true in Hp. destruct Hp as [r Hr].
      exists "", r. split; [exact Hr|]. intros a' b' _. simpl. lia.
    + assert (occurs sub s) as Hs.
      { destruct Hocc as [[|x a] [b H]].
        - assert (startswith (String c s) sub = true) as Hq
              by (apply startswith_true; now exists b).
          congruence.
        - simpl in H. injection H as _ H. now exists a, b. }
      destruct (IH Hs) as [a [b [Ha Hmin]]].
      exists (String c a), b. split; [simpl; now rewrite Ha|].
      intros [|x a'] b' H.
      * assert (startswith (String c s) sub = true) as Hq
            by (apply startswith_true; now exists b').
        congruence.
      * simpl in H. injection H as _ H. specialize (Hmin a' b' H).
        simpl. lia.
Qed.

(** [replace(old, new, 1)] rewrites the first occurrence and nothing else. *)
Lemma replace_first_spec (old new s a b : string) :
  first_occurrence old s a b -> replace_first old new s = a ++ new ++ b.
Proof.
  intros Hocc. unfold replace_first, find.
  rewrite (find_from_first old s a b 0%Z Hocc), Z.add_0_l.
  destruct (Z.eqb_spec (Z.of_nat (String.length a)) (-1)); [lia|].
  rewrite Nat2Z.id. destruct Hocc as [-> _].
  rewrite take_append. f_equal. f_equal.
  rewrite <- length_append, <- append_assoc. apply drop_append.
Qed.

Lemma replace_first_absent (old new s : string) :
  ~ occurs old s -> replace_first old new s = s.
Proof.
  intros H. unfold replace_first, find.
  now rewrite (find_from_present old s 0%Z H).
Qed.

Lemma span_all_digits (s a b : string) :
  span isdigit s = (a, b) -> all_digits a = true.
Proof.
  revert a b. induction s as [|c s IH]; simpl; intros a b H.
  - now injection H as <- <-.
  - destruct (isdigit c) eqn:Hc.
    + destruct (span isdigit s) as [a' b'] eqn:E. injection H as <- <-.
      simpl. now rewrite Hc, (IH a' b' eq_refl).
    + now injection H as <- <-.
Qed.

Lemma span_digits_stop (a b : string) (c : ascii) :
  all_digits a = true -> isdigit c = false ->
  span isdigit (a ++ String c b) = (a, String c b).
Proof.
  intros Ha Hc. induction a as [|x a IH]; simpl.
  - now rewrite Hc.
  - simpl in Ha. apply andb_true_iff in Ha. destruct Ha as [Hx Ha].
    now rewrite Hx, (IH Ha).
Qed.

(** Every literal that the inner [findall] returns is a literal that
    [float] converts. *)
Lemma match_decimal_float (s x rest : string) :
  match_decimal s = Some (x, rest) -> exists q, float x = inr q.
Proof.
  unfold match_decimal.
  destruct (span isdigit s) as [ip s1] eqn:E1.
  destruct ip as [|d ds]; [discriminate|].
  destruct s1 as [|c s1]; [discriminate|].
  destruct (Ascii.eqb_spec c "."); [subst c|discriminate].
  destruct (span isdigit s1) as [fp s2] eqn:E2.
  destruct fp as [|f fs]; [discriminate|].
  intros H. injection H as <- _.
  apply span_all_digits in E1. apply span_all_digits in E2.
  unfold float. cbn [append].
  change (String d (ds ++ String "." (String f fs)))
    with (String d ds ++ String "." (String f fs)).
  rewrite (span_digits_stop (String d ds) (String f fs) "." E1 eq_refl).
  rewrite E2. eexists. reflexivity.
Qed.

Lemma decimals_scan_float (k : nat) (s : string) :
  Forall (fun x => exists q, float x = inr q) (decimals_scan k s).
Proof.
  revert k. induction s as [|c s IH]; intros k; cbn [decimals_scan].
  - constructor.
  - destruct k as [|k]; [|apply IH].
    destruct (match_decimal (String c s)) as [[x rest]|] eqn:E; [|apply IH].
    constructor; [|apply IH]. exact (match_decimal_float _ _ _ E).
Qed.

Lemma mapM_total {A B : Type} (f : A -> Exc B) (l : list A) :
  Forall (fun x => exists y, f x = inr y) l -> exists ys, mapM f l = inr ys.
Proof.
  induction 1 as [|x l [y Hy] _ [ys Hys]]; simpl.
  - now exists [].
  - rewrite Hy. simpl. rewrite Hys. simpl. now exists (y :: ys).
Qed.

(** The comprehension over the decimals of a bracket text never raises. *)
Lemma float_list_total (list_str : string) :
  mapM float (findall_decimals list_str) = inr (coords list_str).
Proof.
  unfold coords.
  destruct (mapM_total float (findall_decimals list_str)
              (decimals_scan_float 0 list_str)) as [ys ->].
  reflexivity.
Qed.

Lemma palette_lookup (i : nat) :
  nth_error colors (i mod 5) = Some (palette i).
Proof.
  unfold palette. assert (i mod 5 < 5)%nat as H by (apply Nat.mod_upper_bound; lia).
  destruct (i mod 5)%nat as [|[|[|[|[|n]]]]]; try reflexivity. lia.
Qed.

(** The loop on the matches of the text [s], when the display string is
    [u ++ s] and the rank of the first match is [i]: it never raises, it
    appends one entry per match and it rewrites the display string once per
    match. *)
Lemma color_loop_spec (matches : list (string * string)) :
  forall (s u : string) (result : list Entry) (i : nat),
    findall s = matches ->
    exists md,
      color_loop matches result (u ++ s) (i mod 5) =
        inr ((result ++ entries_from i matches)%list, md) /\
      rewrites i matches (u ++ s) md.
Proof.
  induction matches as [|[t list_str] matches IH]; intros s u result i Hf.
  - exists (u ++ s). cbn [color_loop entries_from]. rewrite app_nil_r.
    split; [reflexivity | constructor].
  - destruct (findall_cons _ _ _ _ Hf) as [pre [ws [rest [Hs Hmore]]]].
    assert (occurs (tagged t) (u ++ s)) as Hocc.
    { exists (u ++ pre), (ws ++ list_str ++ rest).
      now rewrite Hs, !append_assoc. }
    destruct (first_occurrence_exists _ _ Hocc) as [a [b Hab]].
    assert (exists m, b = m ++ rest) as [m Hm].
    { destruct Hab as [Hab Hmin].
      assert (u ++ s = (u ++ pre) ++ tagged t ++ (ws ++ list_str ++ rest)) as Hs'
          by now rewrite Hs, !append_assoc.
      specialize (Hmin _ _ Hs'). rewrite Hab in Hs'.
      assert ((a ++ tagged t) ++ b
              = ((u ++ pre) ++ tagged t ++ ws ++ list_str) ++ rest) as Hcut
          by (rewrite !append_assoc in Hs'; rewrite !append_assoc; exact Hs').
      destruct (append_split _ _ _ _ Hcut) as [m0 [_ Hb]].
      - rewrite length_append in Hmin. rewrite !length_append. lia.
      - now exists m0. }
    cbn [color_loop]. rewrite float_list_total. cbn [bind].
    rewrite palette_lookup.
    rewrite (replace_first_spec _ (colored (palette i) t) _ _ _ Hab).
    change (List.length colors) with 5%nat.
    replace ((i mod 5 + 1) mod 5)%nat with (S i mod 5)%nat
      by (rewrite Nat.Div0.add_mod_idemp_l; f_equal; lia).
    subst b.
    replace (a ++ colored (palette i) t ++ m ++ rest)
      with ((a ++ colored (palette i) t ++ m) ++ rest)
      by now rewrite !append_assoc.
    destruct (IH rest (a ++ colored (palette i) t ++ m)
                 (result ++ [(t, coords list_str, palette i)])%list (S i)
                 (eq_sym Hmore)) as [md [Hrun Hrw]].
    exists md. split.
    + rewrite Hrun. cbn [entries_from]. now rewrite <- app_assoc.
    + econstructor; [exact Hab|].
      rewrite !append_assoc in Hrw. exact Hrw.
Qed.

(** On every input [extract_and_color] returns: one entry per match of the
    pattern, in match order, with the palette taken in turn, and a display
    string rewritten once per match. *)
Lemma extract_and_color_spec (input_string : string) :
  exists md,
    extract_and_color input_string =
      inr (entries_from 0 (findall input_string), md) /\
    rewrites 0 (findall input_string) input_string md.
Proof.
  destruct (color_loop_spec (findall input_string) input_string "" [] 0 eq_refl)
    as [md [Hrun Hrw]].
  exists md. split; [exact Hrun | exact Hrw].
Qed.

Lemma entries_from_nth (matches : list (string * string)) :
  forall (k i : nat) (t list_str : string),
    nth_error matches i = Some (t, list_str) ->
    nth_error (entries_from k matches) i
      = Some (t, coords list_str, palette (k + i)).
Proof.
  induction matches as [|[t' l'] matches IH]; intros k [|i] t l H;
    try discriminate.
  - injection H as -> ->. cbn. now rewrite Nat.add_0_r.
  - cbn [nth_error entries_from] in *. rewrite (IH (S k) i t l H).
    do 3 f_equal. lia.
Qed.

Lemma entries_from_length (matches : list (string * string)) (k : nat) :
  List.length (entries_from k matches) = List.length matches.
Proof.
  revert k. induction matches as [|[t l] matches IH]; intros k; simpl;
    [reflexivity | now rewrite IH].
Qed.

Lemma coords_no_decimal (list_str : string) :
  findall_decimals list_str = [] -> coords list_str = [].
Proof. intros H. unfold coords. now rewrite H. Qed.




Example extract_and_color_sample :
  extract_and_color sample =
    inr ([("cat", [1 # 10; 1 # 5; 7 # 20; 2 # 5], "red");
          ("dog", [1 # 2; 1 # 2; 1; 1], "blue")],
         "A " ++ colored "red" "cat" ++ " [0.1, 0.2,0.35;0.4] and "
              ++ colored "blue" "dog"
              ++ "[0.5,0.5,1.0,1.0] or <p>cat</p>.").
Proof. reflexivity. Qed.

(** Two annotations on the same span: each rewriting takes the first
    occurrence that the one before left. *)
Example extract_and_color_same_span :
  extract_and_color "<p>a</p>[0.1] <p>a</p>[0.2]" =
    inr ([("a", [1 # 10], "red"); ("a", [1 # 5], "blue")],
         colored "red" "a" ++ "[0.1] " ++ colored "blue" "a" ++ "[0.2]").
Proof. reflexivity. Qed.

(** C5 as it is worded fails. The bracket text ["[1,2]"] holds no float
    literal, yet the span is not skipped: it gets an entry, with an empty
    coordinate list, and a colourised replacement. And a bracket that holds
    other characters makes the lazy group run on to the next bracket of the
    line, so the annotation after it is not processed as it would be
    alone. *)
Lemma unparsable_bracket_not_skipped :
  findall_decimals "[1,2]" = [] /\
  extract_and_color "<p>cat</p>[1,2]" =
    inr ([("cat", [], "red")], colored "red" "cat" ++ "[1,2]") /\
  extract_and_color "<p>a</p>[abc] <p>b</p>[0.5]" =
    inr ([("a</p>[abc] <p>b", [1 # 2], "red")],
         colored "red" "a</p>[abc] <p>b" ++ "[0.5]").
Proof. repeat split; reflexivity. Qed.

(** C5, as the code has it: [extract_and_color] raises on no input and
    skips no annotation that the pattern matches. It returns one entry per
    match, in match order, each with its palette colour, and rewrites the
    display string once per match; a matched annotation whose bracket text
    holds no decimal literal is kept, with an empty coordinate list. *)
Theorem matched_annotation_never_skipped (input_string : string) :
  exists result md,
    extract_and_color input_string = inr (result, md) /\
    List.length result = List.length (findall input_string) /\
    rewrites 0 (findall input_string) input_string md /\
    forall i t list_str,
      nth_error (findall input_string) i = Some (t, list_str) ->
      nth_error result i = Some (t, coords list_str, palette i) /\
      (findall_decimals list_str = [] ->
       nth_error result i = Some (t, [], palette i)).
Proof.
  destruct (extract_and_color_spec input_string) as [md [Hrun Hrw]].
  exists (entries_from 0 (findall input_string)), md.
  split; [exact Hrun|]. split; [apply entries_from_length|].
  split; [exact Hrw|]. intros i t l Hm.
  pose proof (entries_from_nth _ 0 i t l Hm) as He. cbn [Nat.add] in He.
  split; [exact He|]. intros Hno.
  now rewrite (coords_no_decimal l Hno) in He.
Qed.

Lemma matched_annotation_never_skipped_witness :
  exists result md,
    extract_and_color "<p>cat</p>[1,2]" = inr (result, md) /\
    nth_error result 0 = Some ("cat", [], "red").
Proof.
  destruct (matched_annotation_never_skipped "<p>cat</p>[1,2]")
    as [result [md [Hrun [_ [_ H]]]]].
  exists result, md. split; [exact Hrun|].
  exact (proj2 (H 0%nat "cat" "[1,2]" eq_refl) eq_refl).
Defined.

End GroundingFacts.

(** ** Box rendering *)

Section BoxFacts.
Import PyStr Py Float Grounding Box Vocabulary Samples.

Lemma of_int_fits (n : Z) : fits n -> of_int n = inr (round_int n).
Proof. unfold fits, of_int. now intros ->. Qed.

Lemma of_int_inr (n : Z) (f : float64) : of_int n = inr f -> fits n.
Proof.
  unfold fits, of_int. now destruct (is_finite (round_int n)).
Qed.

Lemma scaled_fits (v : float64) (max_edge offset : Z) :
  fits max_edge -> fits offset ->
  scaled v max_edge offset =
    inr (fsub (fmul v (round_int max_edge)) (round_int offset)).
Proof.
  intros Hm Ho. unfold scaled, mul_int, sub_int.
  now rewrite (of_int_fits _ Hm), (of_int_fits _ Ho).
Qed.

Lemma scaled_inr (v : float64) (max_edge offset : Z) (r : float64) :
  scaled v max_edge offset = inr r -> fits max_edge /\ fits offset.
Proof.
  unfold scaled, mul_int, sub_int.
  destruct (of_int max_edge) as [e|m] eqn:Hm; [discriminate|].
  destruct (of_int offset) as [e|o] eqn:Ho; [discriminate|].
  intros _. split; eapply of_int_inr; eassumption.
Qed.

Lemma add_three (x : float64) : add_int x 3 = inr (fadd x (round_int 3)).
Proof. reflexivity. Qed.

(** One box is drawn exactly when what drawing needs is there and the box
    is upright once mapped. *)
Lemma draw_box_returns (files : Files) (max_edge x_origin y_origin : Z)
      (name color : string) (x1 y1 x2 y2 : Q) (img : Image) :
  can_draw files max_edge x_origin y_origin ->
  upright max_edge x_origin y_origin (x1, y1, x2, y2) ->
  draw_box files max_edge x_origin y_origin name color x1 y1 x2 y2 img =
    inr (mkImage (width img) (height img)
           (drawn img
            ++ box_ops max_edge x_origin y_origin name color (x1, y1, x2, y2))%list).
Proof.
  intros [Hfont [Hm [Hx Hy]]] [Hux Huy]. unfold draw_box.
  rewrite !scaled_fits by assumption. cbn [bind].
  unfold rectangle. fold (to_pixel max_edge x_origin x1).
  fold (to_pixel max_edge x_origin x2). fold (to_pixel max_edge y_origin y1).
  fold (to_pixel max_edge y_origin y2). rewrite Hux, Huy. cbn [orb bind ret].
  rewrite !add_three. cbn [bind]. unfold ImageFont_truetype. rewrite Hfont.
  cbn [bind]. unfold ret, draw. cbn [width height drawn box_ops].
  now rewrite <- app_assoc.
Qed.

Lemma draw_box_needs (files : Files) (max_edge x_origin y_origin : Z)
      (name color : string) (x1 y1 x2 y2 : Q) (img img' : Image) :
  draw_box files max_edge x_origin y_origin name color x1 y1 x2 y2 img = inr img' ->
  can_draw files max_edge x_origin y_origin /\
  upright max_edge x_origin y_origin (x1, y1, x2, y2).
Proof.
  unfold draw_box.
  destruct (scaled (of_decimal x1) max_edge x_origin) as [e|px1] eqn:E1;
    [discriminate|].
  destruct (scaled (of_decimal y1) max_edge y_origin) as [e|py1] eqn:E2;
    [discriminate|].
  destruct (scaled_inr _ _ _ _ E1) as [Hm Hx].
  destruct (scaled_inr _ _ _ _ E2) as [_ Hy].
  rewrite scaled_fits in E1, E2 by assumption.
  injection E1 as <-. injection E2 as <-.
  rewrite !scaled_fits by assumption. cbn [bind].
  unfold rectangle. fold (to_pixel max_edge x_origin x1).
  fold (to_pixel max_edge x_origin x2). fold (to_pixel max_edge y_origin y1).
  fold (to_pixel max_edge y_origin y2).
  destruct (flt (to_pixel max_edge x_origin x2) (to_pixel max_edge x_origin x1))
    eqn:Hux; [discriminate|].
  destruct (flt (to_pixel max_edge y_origin y2) (to_pixel max_edge y_origin y1))
    eqn:Huy; [discriminate|].
  cbn [orb bind ret]. rewrite !add_three. cbn [bind].
  unfold ImageFont_truetype.
  destruct (files font_path) as [[w h| |]|] eqn:Hfont; try discriminate.
  intros _. repeat split; assumption.
Qed.

(** Induction on a list of coordinates, four at a time. *)
Lemma quads_ind (P : list Q -> Prop) :
  P [] -> (forall a, P [a]) -> (forall a b, P [a; b]) ->
  (forall a b c, P [a; b; c]) ->
  (forall a b c d rest, P rest -> P (a :: b :: c :: d :: rest)) ->
  forall points, P points.
Proof.
  intros H0 H1 H2 H3 H4 points.
  assert (forall n points, (List.length points <= n)%nat -> P points) as Hall.
  { induction n as [|n IH]; intros [|a [|b [|c [|d rest]]]] Hlen; auto;
      try (cbn [List.length] in Hlen; lia).
    apply H4. apply IH. cbn [List.length] in Hlen. lia. }
  exact (Hall (List.length points) points (le_n _)).
Qed.

Lemma draw_boxes_returns (files : Files) (max_edge x_origin y_origin : Z)
      (name color : string) (n : nat) :
  forall (points : list Q) (img : Image),
    List.length points = (4 * n)%nat ->
    (quads points <> [] -> can_draw files max_edge x_origin y_origin) ->
    Forall (upright max_edge x_origin y_origin) (quads points) ->
    draw_boxes files max_edge x_origin y_origin name color points img =
      inr (mkImage (width img) (height img)
             (drawn img
              ++ flat_map (box_ops max_edge x_origin y_origin name color)
                          (quads points))%list).
Proof.
  induction n as [|n IH]; intros points img Hlen Hcan Hup.
  - destruct points; [|discriminate]. simpl. rewrite app_nil_r.
    now destruct img.
  - destruct points as [|x1 [|y1 [|x2 [|y2 rest]]]]; try (simpl in Hlen; lia).
    cbn [quads] in Hcan, Hup. inversion Hup as [|? ? Hbox Hrest]; subst.
    assert (can_draw files max_edge x_origin y_origin) as Hc
        by (apply Hcan; discriminate).
    cbn [draw_boxes quads flat_map].
    rewrite (draw_box_returns _ _ _ _ _ _ _ _ _ _ _ Hc Hbox). cbn [bind].
    rewrite IH; [| simpl in Hlen; lia | intros _; exact Hc | exact Hrest].
    cbn [width height drawn]. now rewrite <- app_assoc.
Qed.

Lemma draw_boxes_needs (files : Files) (max_edge x_origin y_origin : Z)
      (name color : string) (points : list Q) :
  forall img img',
    draw_boxes files max_edge x_origin y_origin name color points img = inr img' ->
    (exists n, List.length points = (4 * n)%nat) /\
    (quads points <> [] -> can_draw files max_edge x_origin y_origin) /\
    Forall (upright max_edge x_origin y_origin) (quads points).
Proof.
  induction points as [|a|a b|a b c|x1 y1 x2 y2 rest IH] using quads_ind;
    intros img img' Hrun; try discriminate.
  - split; [now exists 0%nat|]. split; [intros H; now elim H | constructor].
  - cbn [draw_boxes] in Hrun.
    destruct (draw_box files max_edge x_origin y_origin name color x1 y1 x2 y2 img)
      as [e|img1] eqn:Hbox; [discriminate|].
    destruct (draw_box_needs _ _ _ _ _ _ _ _ _ _ _ _ Hbox) as [Hc Hup].
    destruct (IH _ _ Hrun) as [[n Hn] [_ Hrest]].
    split; [exists (S n); cbn [List.length]; lia|].
    split; [intros _; exact Hc|]. cbn [quads]. now constructor.
Qed.

Lemma draw_entries_returns (files : Files) (max_edge x_origin y_origin : Z)
      (l : list Entry) :
  Forall whole_boxes l ->
  (boxes l <> [] -> can_draw files max_edge x_origin y_origin) ->
  Forall (upright max_edge x_origin y_origin) (boxes l) ->
  forall img,
    draw_entries files max_edge x_origin y_origin l img =
      inr (mkImage (width img) (height img)
             (drawn img ++ flat_map (entry_ops max_edge x_origin y_origin) l)%list).
Proof.
  induction 1 as [|[[name points] color] l [n Hn] _ IH]; intros Hcan Hup img.
  - simpl. rewrite app_nil_r. now destruct img.
  - cbn [draw_entries]. simpl in Hn.
    unfold boxes in Hcan, Hup. cbn [flat_map fst snd] in Hcan, Hup.
    apply Forall_app in Hup. destruct Hup as [Hup1 Hup2].
    rewrite (draw_boxes_returns _ _ _ _ _ _ n points img Hn);
      [| intros Hq; apply Hcan; destruct (quads points); [now elim Hq | discriminate]
       | exact Hup1].
    cbn [bind]. rewrite IH; [| | exact Hup2].
    + cbn [width height drawn flat_map entry_ops]. now rewrite <- app_assoc.
    + intros Hb. apply Hcan. intros Happ. apply app_eq_nil in Happ.
      now apply Hb.
Qed.

Lemma draw_entries_needs (files : Files) (max_edge x_origin y_origin : Z)
      (l : list Entry) :
  forall img img',
    draw_entries files max_edge x_origin y_origin l img = inr img' ->
    Forall whole_boxes l /\
    (boxes l <> [] -> can_draw files max_edge x_origin y_origin) /\
    Forall (upright max_edge x_origin y_origin) (boxes l).
Proof.
  induction l as [|[[name points] color] l IH]; intros img img' Hrun.
  - split; [constructor|]. split; [intros H; now elim H | constructor].
  - cbn [draw_entries] in Hrun.
    destruct (draw_boxes files max_edge x_origin y_origin name color points img)
      as [e|img1] eqn:Hpoints; [discriminate|]. cbn [bind] in Hrun.
    destruct (draw_boxes_needs _ _ _ _ _ _ _ _ _ Hpoints) as [Hn [Hc1 Hup1]].
    destruct (IH _ _ Hrun) as [Hl [Hc2 Hup2]].
    split; [constructor; assumption|].
    unfold boxes. cbn [flat_map fst snd]. split.
    + intros Hb. destruct (quads points) eqn:Hq.
      * apply Hc2. exact Hb.
      * apply Hc1. discriminate.
    + apply Forall_app. now split.
Qed.

(** The nearest binary64 of an [int] has the sign of the [int]. *)
Lemma round_int_non_negative (n : Z) :
  (0 <= n)%Z -> fits n ->
  round_int n = zero \/ exists m e, round_int n = S754_finite false m e.
Proof.
  intros Hn. unfold fits, round_int, binary_normalize.
  destruct n as [|p|p]; [now left | | lia].
  unfold binary_round. destruct (shl_align p 0 _) as [mz ez].
  unfold binary_round_aux.
  destruct (shr_fexp prec emax (Z.pos mz) ez loc_Exact) as [mrs' e'].
  destruct (shr_fexp prec emax _ e' loc_Exact) as [mrs'' e''].
  destruct (shr_m mrs'') as [|m|m]; [now left | | discriminate].
  destruct (e'' <=? emax - prec)%Z; [|discriminate].
  intros _. right. now exists m, e''.
Qed.

(** A coordinate 0 is mapped to [0.0] less the offset. *)
Lemma to_pixel_zero (max_edge offset : Z) :
  (0 <= max_edge)%Z -> fits max_edge ->
  to_pixel max_edge offset 0 = fsub zero (round_int offset).
Proof.
  intros Hn Hfit. unfold to_pixel. f_equal.
  destruct (round_int_non_negative max_edge Hn Hfit) as [->|[m [e ->]]];
    reflexivity.
Qed.

(** C6, as the code has it: every coordinate of every box is multiplied by
    [max(W, H)] and the letterbox offset is subtracted, in binary64, the
    offset being [((H - W) // 2, 0)] when [W < H] and [(0, (W - H) // 2)]
    otherwise, with the division rounded down to an integer. The call
    returns, with one rectangle and one label per box, when the picture
    opens, the font of the labels is found, the side and the offsets convert
    to [float], every annotation has a colour of the palette and holds
    whole boxes, and no box is inverted once mapped. The left and top edges
    of a box that starts at [(0, 0)] are then [0.0] and
    [0.0 - ((W - H) // 2)] on a landscape picture, and
    [0.0 - ((H - W) // 2)] and [0.0] on a portrait one. *)
Theorem letterbox_offset_is_floored
        (files : Files) (path : string) (W H : Z) (l : list Entry) :
  let max_edge := Z.max W H in
  let x_origin := if (W <? H)%Z then ((H - W) / 2)%Z else 0%Z in
  let y_origin := if (W <? H)%Z then 0%Z else ((W - H) / 2)%Z in
  files path = Some (Picture W H) ->
  files font_path = Some Font ->
  fits max_edge -> fits x_origin -> fits y_origin ->
  Forall (fun e => In (snd e) colors) l ->
  Forall whole_boxes l ->
  Forall (upright max_edge x_origin y_origin) (boxes l) ->
  draw_box_on_image files (Some path) l =
    inr (mkImage W H (flat_map (entry_ops max_edge x_origin y_origin) l)) /\
  (forall name color x1 y1 x2 y2,
      entry_ops max_edge x_origin y_origin (name, [x1; y1; x2; y2], color) =
        [Rectangle
           (fsub (fmul (of_decimal x1) (round_int max_edge)) (round_int x_origin))
           (fsub (fmul (of_decimal y1) (round_int max_edge)) (round_int y_origin))
           (fsub (fmul (of_decimal x2) (round_int max_edge)) (round_int x_origin))
           (fsub (fmul (of_decimal y2) (round_int max_edge)) (round_int y_origin))
           color 2;
         Text
           (fadd (fsub (fmul (of_decimal x1) (round_int max_edge))
                       (round_int x_origin)) (round_int 3))
           (fadd (fsub (fmul (of_decimal y1) (round_int max_edge))
                       (round_int y_origin)) (round_int 3))
           name 15 color]) /\
  ((0 <= H < W)%Z ->
     x_origin = 0%Z /\ y_origin = ((W - H) / 2)%Z /\
     to_pixel max_edge x_origin 0 = zero /\
     to_pixel max_edge y_origin 0 = fsub zero (round_int ((W - H) / 2))) /\
  ((0 <= W < H)%Z ->
     x_origin = ((H - W) / 2)%Z /\ y_origin = 0%Z /\
     to_pixel max_edge x_origin 0 = fsub zero (round_int ((H - W) / 2)) /\
     to_pixel max_edge y_origin 0 = zero).
Proof.
  intros max_edge x_origin y_origin Hfile Hfont Hm Hx Hy _ Hl Hup.
  split; [|split; [|split]].
  - unfold draw_box_on_image, Image_open. rewrite Hfile. cbn [bind ret].
    unfold origin. cbn [width height].
    assert (can_draw files max_edge x_origin y_origin) as Hc
        by (repeat split; assumption).
    subst max_edge x_origin y_origin.
    destruct (W <? H)%Z; cbn [fst snd];
      now rewrite (draw_entries_returns _ _ _ _ l Hl (fun _ => Hc) Hup).
  - reflexivity.
  - intros HW. subst x_origin y_origin.
    destruct (Z.ltb_spec W H); [lia|].
    split; [reflexivity|]. split; [reflexivity|].
    rewrite !to_pixel_zero by (assumption || (unfold max_edge; lia)).
    split; reflexivity.
  - intros HW. subst x_origin y_origin.
    destruct (Z.ltb_spec W H); [|lia].
    split; [reflexivity|]. split; [reflexivity|].
    rewrite !to_pixel_zero by (assumption || (unfold max_edge; lia)).
    split; reflexivity.
Qed.

Lemma letterbox_offset_is_floored_witness :
  draw_box_on_image (one_picture 640 480) (Some "cat.png")
                    [("cat", [0; 0; 1 # 2; 1 # 2], "red")] =
    inr (mkImage 640 480
           (flat_map (entry_ops 640 0 80)
                     [("cat", [0; 0; 1 # 2; 1 # 2], "red")])) /\
  to_pixel 640 0 0 = zero /\
  to_pixel 640 80 0 = fsub zero (round_int 80).
Proof.
  assert (Forall whole_boxes [("cat", [0; 0; 1 # 2; 1 # 2], "red")]) as Hl
      by (constructor; [now exists 1%nat | constructor]).
  assert (Forall (upright 640 0 80)
                 (boxes [("cat", [0; 0; 1 # 2; 1 # 2], "red")])) as Hup
      by (constructor; [split; reflexivity | constructor]).
  assert (Forall (fun e : Entry => In (snd e) colors)
                 [("cat", [0; 0; 1 # 2; 1 # 2], "red")]) as Hcol
      by (constructor; [now left | constructor]).
  destruct (letterbox_offset_is_floored (one_picture 640 480) "cat.png" 640 480
              [("cat", [0; 0; 1 # 2; 1 # 2], "red")] eq_refl eq_refl eq_refl
              eq_refl eq_refl Hcol Hl Hup)
    as [Hrun [_ [Hland _]]].
  split; [exact Hrun|].
  destruct (Hland ltac:(lia)) as [_ [_ Hpix]]. exact Hpix.
Defined.

Example draw_box_landscape :
  draw_box_on_image (one_picture 640 480) (Some "cat.png")
                    [("cat", [0; 0; 1 # 2; 1 # 2], "red")] =
    inr (mkImage 640 480
           [Rectangle zero (SFopp (round_int 80)) (round_int 320) (round_int 240)
                      "red" 2;
            Text (round_int 3) (SFopp (round_int 77)) "cat" 15 "red"]).
Proof. vm_compute. reflexivity. Qed.

Example draw_box_portrait :
  draw_box_on_image (one_picture 480 640) (Some "cat.png")
                    [("cat", [0; 0; 1 # 2; 1 # 2], "red")] =
    inr (mkImage 480 640
           [Rectangle (SFopp (round_int 80)) zero (round_int 240) (round_int 320)
                      "red" 2;
            Text (SFopp (round_int 77)) (round_int 3) "cat" 15 "red"]).
Proof. vm_compute. reflexivity. Qed.

(** The literal [0.1] is held as [0x1.999999999999ap-4], and the product is
    rounded: [0.1 * 3] is [0.30000000000000004] and not the [float] of
    [0.3]. *)
Example draw_box_rounds :
  of_decimal (1 # 10) = S754_finite false 7205759403792794 (-56) /\
  to_pixel 3 0 (1 # 10) = S754_finite false 5404319552844596 (-54) /\
  of_decimal (3 # 10) = S754_finite false 5404319552844595 (-54).
Proof. repeat split; vm_compute; reflexivity. Qed.

(** C6 as it is worded fails when [W - H] is odd: on a picture of 5 by 2
    the top edge of the box [(0, 0, 0.5, 0.5)] is [-1.0], not
    [-(5 - 2)/2 = -1.5]. *)
Lemma odd_letterbox_top_edge :
  draw_box_on_image (one_picture 5 2) (Some "cat.png")
                    [("cat", [0; 0; 1 # 2; 1 # 2], "red")] =
    inr (mkImage 5 2
           [Rectangle zero (SFopp (round_int 1)) (of_decimal (5 # 2))
                      (of_decimal (3 # 2)) "red" 2;
            Text (round_int 3) (round_int 2) "cat" 15 "red"]) /\
  SFopp (round_int 1) <> of_decimal (- (3 # 2)).
Proof. split; [vm_compute; reflexivity | vm_compute; discriminate]. Qed.

(** A last run of fewer than four coordinates cannot be unpacked. *)
Example draw_box_partial_box :
  draw_box_on_image (one_picture 640 480) (Some "cat.png")
                    [("cat", [1 # 2], "red")] = inl ValueError.
Proof. reflexivity. Qed.

(** A box whose right edge is left of its left edge is refused by
    [draw.rectangle]. *)
Example draw_box_inverted_box :
  draw_box_on_image (one_picture 640 480) (Some "cat.png")
                    [("cat", [1 # 2; 0; 1 # 4; 1 # 2], "red")] = inl ValueError.
Proof. vm_compute. reflexivity. Qed.

End BoxFacts.

(** ** The front end *)

Section OrchestratorFacts.
Import PyStr Py Protocol Grounding Box Orchestrator Vocabulary Samples.

Lemma replace_scan_skip (old new : string) (k : nat) (s : string) :
  replace_scan old new k s = replace_scan old new 0 (drop k s).
Proof.
  revert k. induction s as [|c s IH]; intros [|k]; try reflexivity.
  cbn [replace_scan drop]. apply IH.
Qed.

Lemma replace_scan_miss (old new : string) (c : ascii) (s : string) :
  startswith (String c s) old = false ->
  replace_scan old new 0 (String c s) = String c (replace_scan old new 0 s).
Proof. intros H. cbn [replace_scan]. now rewrite H. Qed.

Lemma replace_scan_hit (old new : string) (c : ascii) (s : string) :
  replace_scan (String c old) new 0 (String c old ++ s) =
  new ++ replace_scan (String c old) new 0 s.
Proof.
  cbn [append replace_scan].
  replace (startswith (String c (old ++ s)) (String c old)) with true
    by (symmetry; apply startswith_true; now exists s).
  rewrite replace_scan_skip.
  replace (String.length (String c old) - 1)%nat with (String.length old)
    by (cbn [String.length]; lia).
  now rewrite drop_append.
Qed.

Lemma replace_scan_char (x : ascii) (new s : string) :
  replace_scan (String x "") new 0 s =
  expand (fun c => if (c =? x)%char then new else String c "") s.
Proof.
  induction s as [|c s IH]; [reflexivity|].
  cbn [expand]. destruct (Ascii.eqb_spec c x) as [->|Hne].
  - change (String x s) with (String x "" ++ s).
    now rewrite replace_scan_hit, IH.
  - rewrite replace_scan_miss, IH; [reflexivity|].
    unfold startswith. cbn [prefix].
    destruct (ascii_dec x c); [congruence | reflexivity].
Qed.

Lemma escape_expand (t : string) : escape t = expand escape_both t.
Proof.
  unfold escape, replace. rewrite !replace_scan_char.
  induction t as [|c t IH]; [reflexivity|].
  cbn [expand]. unfold escape_both.
  destruct (Ascii.eqb_spec c "<") as [->|Hlt].
  - cbn. now rewrite IH.
  - cbn [append expand]. now rewrite IH.
Qed.

(** A string of plain characters heads an escaped text exactly when it
    heads the text. *)
Lemma prefix_expand_plain (f : ascii -> string) :
  (forall c, f c = String c "" \/
             ((c = "<" \/ c = ">")%char /\ exists r, f c = String "&" r)) ->
  forall w s, plain w = true -> prefix w (expand f s) = prefix w s.
Proof.
  intros Hf. induction w as [|x w IH]; intros s Hw.
  - transitivity true; [|symmetry]; apply startswith_nil.
  - cbn [plain] in Hw. apply andb_true_iff in Hw. destruct Hw as [Hx Hw].
    apply andb_true_iff in Hx. destruct Hx as [Hx Hamp].
    apply andb_true_iff in Hx. destruct Hx as [Hlt Hgt].
    apply negb_true_iff in Hlt, Hgt, Hamp.
    apply Ascii.eqb_neq in Hlt, Hgt, Hamp.
    destruct s as [|c s]; [reflexivity|].
    cbn [expand]. destruct (Hf c) as [-> | [Hc [r ->]]].
    + cbn [append prefix]. destruct (ascii_dec x c); [now apply IH | reflexivity].
    + cbn [append prefix].
      destruct (ascii_dec x "&"); [congruence|].
      destruct (ascii_dec x c); [|reflexivity].
      destruct Hc; congruence.
Qed.

Lemma escape_both_shape (c : ascii) :
  escape_both c = String c "" \/
  ((c = "<" \/ c = ">")%char /\ exists r, escape_both c = String "&" r).
Proof.
  unfold escape_both.
  destruct (Ascii.eqb_spec c "<"); [right; split; [now left | now eexists]|].
  destruct (Ascii.eqb_spec c ">"); [right; split; [now right | now eexists]|].
  now left.
Qed.

Lemma escape_gt_shape (c : ascii) :
  escape_gt c = String c "" \/
  ((c = "<" \/ c = ">")%char /\ exists r, escape_gt c = String "&" r).
Proof.
  unfold escape_gt.
  destruct (Ascii.eqb_spec c ">"); [right; split; [now right | now eexists]|].
  now left.
Qed.

Lemma occurs_tail (sub : string) (c : ascii) (s : string) :
  ~ occurs sub (String c s) -> ~ occurs sub s.
Proof.
  intros H [a [b Hs]]. apply H. exists (String c a), b. simpl. now rewrite Hs.
Qed.

Lemma occurs_head (sub s : string) :
  ~ occurs sub s -> startswith s sub = false.
Proof.
  intros H. destruct (startswith s sub) eqn:Hp; [|reflexivity].
  apply startswith_true in Hp. destruct Hp as [r Hr].
  elim H. now exists "", r.
Qed.

(** The first pass of [unescape] takes back the escapes of ["<"] and
    touches nothing else. *)
Lemma unescape_lt_pass (s : string) :
  ~ occurs "&lt;" s ->
  replace_scan "&lt;" "<" 0 (expand escape_both s) = expand escape_gt s.
Proof.
  induction s as [|c s IH]; intros Hno; [reflexivity|].
  specialize (IH (occurs_tail _ _ _ Hno)).
  cbn [expand]. unfold escape_both at 1, escape_gt at 1.
  destruct (Ascii.eqb_spec c "<") as [->|Hlt].
  - rewrite replace_scan_hit, IH. reflexivity.
  - destruct (Ascii.eqb_spec c ">") as [->|Hgt].
    + cbn [append]. do 4 (rewrite replace_scan_miss by reflexivity).
      now rewrite IH.
    + cbn [append]. rewrite replace_scan_miss, IH; [reflexivity|].
      apply occurs_head in Hno. unfold startswith in *.
      cbn [prefix] in *. destruct (ascii_dec "&" c); [|reflexivity].
      now rewrite (prefix_expand_plain escape_both escape_both_shape "lt;").
Qed.

(** The second pass takes back the escapes of [">"]. *)
Lemma unescape_gt_pass (s : string) :
  ~ occurs "&gt;" s ->
  replace_scan "&gt;" ">" 0 (expand escape_gt s) = s.
Proof.
  induction s as [|c s IH]; intros Hno; [reflexivity|].
  specialize (IH (occurs_tail _ _ _ Hno)).
  cbn [expand]. unfold escape_gt at 1.
  destruct (Ascii.eqb_spec c ">") as [->|Hgt].
  - rewrite replace_scan_hit, IH. reflexivity.
  - cbn [append]. rewrite replace_scan_miss, IH; [reflexivity|].
    apply occurs_head in Hno. unfold startswith in *.
    cbn [prefix] in *. destruct (ascii_dec "&" c); [|reflexivity].
    now rewrite (prefix_expand_plain escape_gt escape_gt_shape "gt;").
Qed.

Lemma unescape_escape (t : string) :
  ~ occurs "&lt;" t -> ~ occurs "&gt;" t -> unescape (escape t) = t.
Proof.
  intros Hlt Hgt. unfold unescape, replace. rewrite escape_expand.
  now rewrite unescape_lt_pass, unescape_gt_pass.
Qed.

Lemma list_slice_to_last {A : Type} (l : list A) (x : A) :
  list_slice_to (l ++ [x])%list (-1) = l.
Proof.
  unfold list_slice_to. rewrite length_app. cbn [List.length].
  destruct (Z.ltb_spec (-1) 0); [|lia].
  rewrite Z.max_r by lia.
  replace (Z.to_nat (Z.of_nat (List.length l + 1) + -1)) with (List.length l + 0)%nat
    by lia.
  rewrite firstn_app_2. cbn [firstn]. apply app_nil_r.
Qed.

(** C9: [undo] on a conversation that is not empty returns it without its
    last turn, the earlier turns unchanged and in order, so one turn
    shorter; on the empty conversation it returns the empty conversation. *)
Theorem undo_removes_last_turn :
  (forall C : Conversation,
      C <> [] ->
      exists init last,
        C = (init ++ [last])%list /\ undo C = init /\
        List.length (undo C) = (List.length C - 1)%nat) /\
  undo [] = [].
Proof.
  split; [|reflexivity]. intros C HC.
  destruct (exists_last HC) as [init [last ->]].
  exists init, last. split; [reflexivity|].
  assert (undo (init ++ [last])%list = init) as Hu.
  { unfold undo. rewrite length_app. cbn [List.length].
    destruct (Nat.ltb_spec 0 (List.length init + 1)); [|lia].
    apply list_slice_to_last. }
  split; [exact Hu|]. rewrite Hu, length_app. cbn [List.length]. lia.
Qed.

Lemma undo_removes_last_turn_witness :
  undo [(Some "hi", Some "hello"); (Some "draw a cat", None)] =
    [(Some "hi", Some "hello")].
Proof.
  destruct (proj1 undo_removes_last_turn
              [(Some "hi", Some "hello"); (Some "draw a cat", None)])
    as [init [last [HC [Hu _]]]]; [discriminate|].
  rewrite Hu. symmetry in HC.
  change (init ++ [last] = [(Some "hi", Some "hello")] ++ [(Some "draw a cat", None)])%list
    in HC.
  apply app_inj_tail in HC. now destruct HC as [-> _].
Defined.

(** *** One user turn *)

Lemma set_last_bot_snoc (turns : Conversation) (u b : option string)
      (v : string) :
  set_last_bot (turns ++ [(u, b)])%list v = inr (turns ++ [(u, Some v)])%list.
Proof.
  induction turns as [|t turns IH]; [reflexivity|].
  cbn [app set_last_bot]. cbn [app] in IH. rewrite IH.
  destruct (turns ++ [(u, b)])%list eqn:E; [now destruct turns|].
  now destruct t.
Qed.

Lemma wait_ready_stray (stray : list StreamChunk) (q : Queue Message) :
  wait_ready (map Chunk stray ++ Ready :: q)%list =
    ((map Received (map Chunk stray) ++ [Received Ready])%list, Some q).
Proof.
  induction stray as [|c stray IH]; [reflexivity|].
  cbn [map app wait_ready]. now rewrite IH.
Qed.

Lemma wait_ready_starved (stray : list StreamChunk) :
  wait_ready (map Chunk stray) = (map Received (map Chunk stray), None).
Proof.
  induction stray as [|c stray IH]; [reflexivity|].
  cbn [map wait_ready]. now rewrite IH.
Qed.

Lemma fan_out_all (request_queues : list (Queue GenerationRequest))
      (img_path : option string) (chatbot : Conversation)
      (max_gen_len : Z) (gen_t top_p : Q) (img_transform : string) :
  forall worker,
    fan_out worker request_queues img_path chatbot max_gen_len gen_t top_p
            img_transform =
      (map (fun i => Sent i (mkRequest img_path (chatbot_for_model chatbot)
                                       max_gen_len gen_t top_p img_transform))
           (seq worker (List.length request_queues)),
       map (fun q => put q (mkRequest img_path (chatbot_for_model chatbot)
                                      max_gen_len gen_t top_p img_transform))
           request_queues).
Proof.
  induction request_queues as [|q rest IH]; intros worker; [reflexivity|].
  cbn [fan_out List.length seq map]. now rewrite IH.
Qed.

Lemma first_first (evs evs' : list Event) (r : Run) :
  first evs (first evs' r) = first (evs ++ evs')%list r.
Proof. unfold first. cbn. now rewrite app_assoc. Qed.

(** A chunk that does not end the content is shown, escaped, in the last
    turn, and the loop goes on. *)
Lemma relay_open_chunk (files : Files) (img_path : option string)
      (rqs : list (Queue GenerationRequest)) (turns : Conversation)
      (u b : option string) (c : StreamChunk) (q : Queue Message) :
  end_of_content c = false ->
  let shown := (turns ++ [(u, Some (escape (text c)))])%list in
  relay files img_path rqs (turns ++ [(u, b)])%list (Chunk c :: q) =
    first [Received (Chunk c); Yielded shown None None]
          (relay files img_path rqs shown q).
Proof.
  intros Hc. cbn [relay]. now rewrite set_last_bot_snoc, Hc.
Qed.

(** The chunk that ends the content is shown when its annotations can be
    extracted and drawn; if that raises, nothing is yielded for it. Either
    way the turn is over and the rest of the queue is left. *)
Lemma relay_final_chunk (files : Files) (img_path : option string)
      (rqs : list (Queue GenerationRequest)) (turns : Conversation)
      (u b : option string) (c : StreamChunk) (q : Queue Message) :
  end_of_content c = true ->
  let shown := (turns ++ [(u, Some (escape (text c)))])%list in
  relay files img_path rqs (turns ++ [(u, b)])%list (Chunk c :: q) =
    match post_process files img_path (text c) with
    | inr (colored_piece, boxed_image) =>
        mkRun [Received (Chunk c);
               Yielded shown (Some [(colored_piece, None)]) (Some boxed_image)]
              Returned q rqs shown
    | inl e => mkRun [Received (Chunk c)] (Raised e) q rqs shown
    end.
Proof.
  intros Hc. cbn [relay]. rewrite set_last_bot_snoc, Hc. unfold post_process.
  destruct (extract_and_color (text c)) as [e|[boxed colored_piece]];
    [reflexivity|].
  cbn [bind fst snd].
  now destruct (draw_box_on_image files img_path boxed).
Qed.

Lemma relay_open_chunks (files : Files) (img_path : option string)
      (rqs : list (Queue GenerationRequest)) (turns : Conversation)
      (u : option string) (body : list StreamChunk) (q : Queue Message) :
  Forall (fun c => end_of_content c = false) body ->
  forall b, exists b',
    relay files img_path rqs (turns ++ [(u, b)])%list (map Chunk body ++ q)%list =
      first (flat_map
               (fun c => [Received (Chunk c);
                          Yielded (turns ++ [(u, Some (escape (text c)))])%list
                                  None None])
               body)
            (relay files img_path rqs (turns ++ [(u, b')])%list q).
Proof.
  induction 1 as [|c body Hc _ IH]; intros b.
  - exists b. cbn [map app flat_map]. unfold first.
    now destruct (relay files img_path rqs (turns ++ [(u, b)])%list q).
  - destruct (IH (Some (escape (text c)))) as [b' Hb'].
    exists b'. cbn [map app flat_map].
    rewrite relay_open_chunk by exact Hc. cbv zeta.
    now rewrite Hb', first_first.
Qed.

(** The course of one turn. Chunks that arrive before [Ready] are received
    and dropped; after the one [Ready] the request goes to every request
    queue, in order; every chunk before the final one is received and
    yielded; the final chunk is received, and yielded when its
    post-processing returns; nothing after it is received. *)
Lemma turn_protocol (files : Files) (stray body : list StreamChunk)
      (final : StreamChunk) (rest : Queue Message)
      (rqs : list (Queue GenerationRequest)) (img_path : option string)
      (turns : Conversation) (u b : option string)
      (max_gen_len : Z) (gen_t top_p : Q) (img_transform : string) :
  Forall (fun c => end_of_content c = false) body ->
  end_of_content final = true ->
  let chatbot := (turns ++ [(u, b)])%list in
  let req := mkRequest img_path (chatbot_for_model chatbot) max_gen_len gen_t
                       top_p img_transform in
  let shown c := (turns ++ [(u, Some (escape (text c)))])%list in
  let run := stream_model_output files
               (map Chunk stray ++ Ready :: map Chunk body ++ Chunk final :: rest)%list
               rqs img_path chatbot max_gen_len gen_t top_p img_transform in
  request_queues run = map (fun q => put q req) rqs /\
  response_queue run = rest /\
  chatbot_after run = shown final /\
  exists tail,
    events run =
      (map Received (map Chunk stray) ++ [Received Ready]
       ++ map (fun i => Sent i req) (seq 0 (List.length rqs))
       ++ flat_map (fun c => [Received (Chunk c); Yielded (shown c) None None]) body
       ++ Received (Chunk final) :: tail)%list /\
    match post_process files img_path (text final) with
    | inr (colored_piece, boxed_image) =>
        tail = [Yielded (shown final) (Some [(colored_piece, None)])
                        (Some boxed_image)] /\
        outcome run = Returned
    | inl e => tail = [] /\ outcome run = Raised e
    end.
Proof.
  intros Hbody Hfinal. cbv zeta.
  set (req := mkRequest img_path (chatbot_for_model (turns ++ [(u, b)])%list)
                        max_gen_len gen_t top_p img_transform).
  set (shown := fun c : StreamChunk =>
                  (turns ++ [(u, Some (escape (text c)))])%list).
  unfold stream_model_output. rewrite wait_ready_stray.
  rewrite (fan_out_all rqs img_path _ max_gen_len gen_t top_p
             img_transform 0).
  fold req.
  destruct (relay_open_chunks files img_path (map (fun q => put q req) rqs)
              turns u body (Chunk final :: rest) Hbody b) as [b' ->].
  rewrite first_first, relay_final_chunk by exact Hfinal. cbv zeta.
  fold (shown final).
  destruct (post_process files img_path (text final))
    as [e|[colored_piece boxed_image]]; cbn [first events outcome
      response_queue request_queues chatbot_after];
    (split; [reflexivity|]); (split; [reflexivity|]); (split; [reflexivity|]).
  - exists []. split; [|now split]. now rewrite <- !app_assoc.
  - eexists. split; [|split; reflexivity]. now rewrite <- !app_assoc.
Qed.

(** Without a picture the annotations are extracted but cannot be drawn. *)
Lemma post_process_without_picture (files : Files) (final_text : string) :
  post_process files None final_text = inl AttributeError.
Proof.
  unfold post_process.
  destruct (extract_and_color_spec final_text) as [md [-> _]].
  reflexivity.
Qed.

(** So every turn without a picture goes through the protocol up to the
    final chunk, receives it, and ends with the exception instead of the
    last yield. *)
Lemma turn_without_picture (files : Files) (stray body : list StreamChunk)
      (final : StreamChunk) (rest : Queue Message)
      (rqs : list (Queue GenerationRequest))
      (turns : Conversation) (u b : option string)
      (max_gen_len : Z) (gen_t top_p : Q) (img_transform : string) :
  Forall (fun c => end_of_content c = false) body ->
  end_of_content final = true ->
  let chatbot := (turns ++ [(u, b)])%list in
  let req := mkRequest None (chatbot_for_model chatbot) max_gen_len gen_t
                       top_p img_transform in
  let shown c := (turns ++ [(u, Some (escape (text c)))])%list in
  let run := stream_model_output files
               (map Chunk stray ++ Ready :: map Chunk body ++ Chunk final :: rest)%list
               rqs None chatbot max_gen_len gen_t top_p img_transform in
  outcome run = Raised AttributeError /\
  response_queue run = rest /\
  events run =
    (map Received (map Chunk stray) ++ [Received Ready]
     ++ map (fun i => Sent i req) (seq 0 (List.length rqs))
     ++ flat_map (fun c => [Received (Chunk c); Yielded (shown c) None None]) body
     ++ [Received (Chunk final)])%list.
Proof.
  intros Hbody Hfinal.
  pose proof (turn_protocol files stray body final rest rqs None turns u b
                max_gen_len gen_t top_p img_transform Hbody Hfinal) as H.
  cbv zeta in H |- *. destruct H as [_ [Hq [_ [tail [Hev Hpost]]]]].
  rewrite post_process_without_picture in Hpost. destruct Hpost as [-> Hout].
  now repeat split.
Qed.

(** C1 on two turns that the front end can meet. The ready-wait drops the
    stray chunk and stops at the one [Ready]; the request then goes to both
    workers; the open chunk is received and yielded. But the chunk that
    ends the content is received and never yielded: without a picture
    [Image.open(None)] raises in [draw_box_on_image], and with a picture a
    bracket of fewer than four coordinates cannot be unpacked. In both
    turns nothing after the final chunk is received. *)
Theorem final_chunk_received_not_yielded :
  stream_model_output (one_picture 640 480)
    [Chunk (mkChunk "old" true); Ready; Chunk (mkChunk "Hel" false);
     Chunk (mkChunk "Hello" true); Ready]
    [[]; []] None [(Some "hi", None)] 64 (1 # 10) (3 # 4) "padded_resize" =
  mkRun [Received (Chunk (mkChunk "old" true)); Received Ready;
         Sent 0 (hello_request None); Sent 1 (hello_request None);
         Received (Chunk (mkChunk "Hel" false));
         Yielded [(Some "hi", Some "Hel")] None None;
         Received (Chunk (mkChunk "Hello" true))]
        (Raised AttributeError) [Ready]
        [[hello_request None]; [hello_request None]]
        [(Some "hi", Some "Hello")]
  /\
  stream_model_output (one_picture 640 480)
    [Ready; Chunk (mkChunk "<p>cat</p>[0.5]" true); Ready]
    [[]] (Some "cat.png") [(Some "hi", None)] 64 (1 # 10) (3 # 4)
    "padded_resize" =
  mkRun [Received Ready; Sent 0 (hello_request (Some "cat.png"));
         Received (Chunk (mkChunk "<p>cat</p>[0.5]" true))]
        (Raised ValueError) [Ready]
        [[hello_request (Some "cat.png")]]
        [(Some "hi", Some "&lt;p&gt;cat&lt;/p&gt;[0.5]")].
Proof. split; reflexivity. Qed.

(** The same turn with a picture and a well-formed answer runs to the
    end. *)
Example turn_with_picture :
  stream_model_output (one_picture 640 480)
    [Chunk (mkChunk "old" true); Ready; Chunk (mkChunk "Hel" false);
     Chunk (mkChunk "Hello" true); Ready]
    [[]] (Some "cat.png") [(Some "hi", None)] 64 (1 # 10) (3 # 4)
    "padded_resize" =
  mkRun [Received (Chunk (mkChunk "old" true)); Received Ready;
         Sent 0 (hello_request (Some "cat.png"));
         Received (Chunk (mkChunk "Hel" false));
         Yielded [(Some "hi", Some "Hel")] None None;
         Received (Chunk (mkChunk "Hello" true));
         Yielded [(Some "hi", Some "Hello")] (Some [("Hello", None)])
                 (Some (mkImage 640 480 []))]
        Returned [Ready] [[hello_request (Some "cat.png")]]
        [(Some "hi", Some "Hello")].
Proof. reflexivity. Qed.

(** *** Escaping *)

(** C7 as it is worded fails: a text that holds ["&lt;"] itself comes back
    from display and transmission with a ["<"] in its place. *)
Lemma literal_entity_not_restored :
  escape "x &lt; y" = "x &lt; y" /\
  unescape (escape "x &lt; y") = "x < y" /\
  unescape (escape "x &lt; y") <> "x &lt; y".
Proof. repeat split; try reflexivity. discriminate. Qed.

(** C7, as the code has it. Every chunk text is shown with each ["<"]
    turned into ["&lt;"] and each [">"] into ["&gt;"]; every request carries
    a copy of the conversation in which both sides of every turn, where
    not [None], went through the two inverse replacements, while the
    conversation shown keeps its escapes; and displaying then transmitting
    gives back every text that holds neither ["&lt;"] nor ["&gt;"]. *)
Theorem escape_unescape_round_trip :
  (forall t, escape t = expand escape_both t) /\
  (forall files img_path rqs turns u b c q,
      let shown := (turns ++ [(u, Some (escape (text c)))])%list in
      relay files img_path rqs (turns ++ [(u, b)])%list (Chunk c :: q) =
        if end_of_content c then
          match post_process files img_path (text c) with
          | inr (colored_piece, boxed_image) =>
              mkRun [Received (Chunk c);
                     Yielded shown (Some [(colored_piece, None)])
                             (Some boxed_image)]
                    Returned q rqs shown
          | inl e => mkRun [Received (Chunk c)] (Raised e) q rqs shown
          end
        else
          first [Received (Chunk c); Yielded shown None None]
                (relay files img_path rqs shown q)) /\
  (forall worker rqs img_path chatbot max_gen_len gen_t top_p img_transform,
      let sent := fan_out worker rqs img_path chatbot max_gen_len gen_t top_p
                          img_transform in
      (forall i r, In (Sent i r) (fst sent) ->
                   req_chatbot r = chatbot_for_model chatbot) /\
      List.length (fst sent) = List.length rqs /\
      forall i u b,
        nth_error chatbot i = Some (u, b) ->
        nth_error (chatbot_for_model chatbot) i =
          Some (option_map unescape u, option_map unescape b)) /\
  (forall t, ~ occurs "&lt;" t -> ~ occurs "&gt;" t -> unescape (escape t) = t).
Proof.
  split; [exact escape_expand|]. split; [|split; [|exact unescape_escape]].
  - intros files img_path rqs turns u b c q. cbv zeta.
    destruct (end_of_content c) eqn:Hc.
    + now rewrite relay_final_chunk.
    + now rewrite relay_open_chunk.
  - intros worker rqs img_path chatbot max_gen_len gen_t top_p img_transform.
    cbv zeta. rewrite fan_out_all. cbn [fst]. split; [|split].
    + intros i r Hin. apply in_map_iff in Hin. destruct Hin as [j [Hj _]].
      injection Hj as _ <-. reflexivity.
    + now rewrite length_map, length_seq.
    + intros i u b Hn. unfold chatbot_for_model.
      rewrite nth_error_map.
      etransitivity; [apply f_equal; exact Hn | reflexivity].
Qed.

Lemma escape_unescape_round_trip_witness :
  (~ occurs "&lt;" "<p>cat</p>" /\ ~ occurs "&gt;" "<p>cat</p>") /\
  escape "<p>cat</p>" = "&lt;p&gt;cat&lt;/p&gt;" /\
  unescape (escape "<p>cat</p>") = "<p>cat</p>".
Proof.
  assert (~ occurs "&lt;" "<p>cat</p>") as H1
      by (apply (find_from_absent _ _ 0%Z); [lia | reflexivity]).
  assert (~ occurs "&gt;" "<p>cat</p>") as H2
      by (apply (find_from_absent _ _ 0%Z); [lia | reflexivity]).
  split; [now split|]. split; [reflexivity|].
  exact (proj2 (proj2 (proj2 escape_unescape_round_trip)) "<p>cat</p>" H1 H2).
Defined.

End OrchestratorFacts.

(** ** The training driver *)

Section EngineFacts.
Import Py Engine.

Variable Tensor : Type.
Variable add : Tensor -> Tensor -> Tensor.
Variable scale : Tensor -> Q -> Tensor.
Variable div_int : Tensor -> Z -> Tensor.
Variable item : Tensor -> PyFloat.
Variable any_isinf : Tensor -> bool.
Variable Batch : Type.
Variable model : Batch -> ModelOutput Tensor.
Variable loss_scaler : Tensor -> bool -> option Q -> option Tensor.

Let step := train_step Tensor add scale div_int item any_isinf Batch model
                       loss_scaler.
Let loop := train_loop Tensor add scale div_int item any_isinf Batch model
                       loss_scaler.
Let epoch_run := train_one_epoch Tensor add scale div_int item any_isinf Batch
                                 model loss_scaler.

Lemma andThen_value {A B : Type} (es : list (Effect Tensor Batch)) (a : A)
      (k : A -> M Tensor Batch B) :
  andThen (es, inr a) k = ((es ++ fst (k a))%list, snd (k a)).
Proof. unfold andThen. now destruct (k a). Qed.

Lemma modulo_value (a b : Z) : b <> 0%Z -> modulo a b = inr (a mod b)%Z.
Proof. intros H. unfold modulo. now rewrite (proj2 (Z.eqb_neq _ _) H). Qed.

Lemma floordiv_value (a b : Z) : b <> 0%Z -> floordiv a b = inr (a / b)%Z.
Proof. intros H. unfold floordiv. now rewrite (proj2 (Z.eqb_neq _ _) H). Qed.

(** The loop on [pre ++ rest] is the loop on [pre] and then, if that
    completes, the loop on [rest] from the step it reached. *)
Lemma train_loop_app (args : Args) (epoch : Z) (pre rest : list Batch) :
  forall start,
    loop args epoch start (pre ++ rest)%list =
    andThen (loop args epoch start pre)
            (fun _ => loop args epoch (start + Z.of_nat (List.length pre)) rest).
Proof.
  unfold loop. induction pre as [|b pre IH]; intros start.
  - cbn [app train_loop List.length]. rewrite Z.add_0_r.
    unfold pure. rewrite andThen_value. cbn [app].
    now destruct (train_loop _ _ _ _ _ _ _ _ _ args epoch start rest).
  - cbn [app train_loop]. rewrite IH.
    replace (start + 1 + Z.of_nat (List.length pre))%Z
      with (start + Z.of_nat (List.length (b :: pre)))%Z
      by (cbn [List.length]; lia).
    destruct (train_step _ _ _ _ _ _ _ _ _ args epoch start b) as [e1 [s|[]]];
      [reflexivity|].
    rewrite andThen_value.
    destruct (train_loop _ _ _ _ _ _ _ _ _ args epoch (start + 1) pre)
      as [e2 [s|[]]].
    + reflexivity.
    + rewrite !andThen_value. cbn [fst snd].
      rewrite andThen_value. cbn [fst snd]. now rewrite app_assoc.
Qed.

(** When the loop has completed the batches before it, a step that stops
    stops the epoch. *)
Lemma train_loop_stops (args : Args) (epoch start : Z)
      (pre post : list Batch) (batch_data : Batch)
      (done effs : list (Effect Tensor Batch)) (s : Stop) :
  loop args epoch start pre = (done, inr tt) ->
  step args epoch (start + Z.of_nat (List.length pre)) batch_data
    = (effs, inl s) ->
  epoch_run args epoch start (pre ++ batch_data :: post)%list
    = ((done ++ effs)%list, inl s).
Proof.
  intros Hpre Hstep. unfold epoch_run, train_one_epoch.
  fold loop. rewrite train_loop_app, Hpre, andThen_value.
  unfold loop. cbn [train_loop]. fold step. rewrite Hstep.
  reflexivity.
Qed.

(** C8: a step that computes its loss and finds the value not finite prints
    it and exits with code 1. Its only effects are the adjustment of the
    learning rate (on the first step of an accumulation window) and the
    forward pass: [loss_scaler] is not called, so there is no gradient
    scaling and no optimizer update, and no checkpoint is saved; the
    batches that follow are not run. *)
Theorem non_finite_loss_exits
        (args : Args) (epoch start : Z) (pre post : list Batch)
        (batch_data : Batch) (dpo_loss : Tensor)
        (done : list (Effect Tensor Batch)) :
  let data_iter_step := (start + Z.of_nat (List.length pre))%Z in
  let loss_value := item (total_loss Tensor add scale dpo_loss (model batch_data)) in
  let seen :=
    ((if (data_iter_step mod accum_iter args =? 0)%Z
      then [AdjustLearningRate data_iter_step] else [])
     ++ [Forward batch_data; PrintLoss loss_value])%list in
  accum_iter args <> 0%Z ->
  autocast_ctx (precision args) = inr tt ->
  lookup "loss" (dpo_output (model batch_data)) = inr dpo_loss ->
  isfinite loss_value = false ->
  loop args epoch start pre = (done, inr tt) ->
  step args epoch data_iter_step batch_data = (seen, inl (Exit 1)) /\
  epoch_run args epoch start (pre ++ batch_data :: post)%list
    = ((done ++ seen)%list, inl (Exit 1)).
Proof.
  intros data_iter_step loss_value seen Hacc Hctx Hloss Hinf Hpre.
  assert (step args epoch data_iter_step batch_data = (seen, inl (Exit 1)))
    as Hstep.
  { unfold step, train_step, seen. cbv zeta.
    rewrite (modulo_value _ _ Hacc), Hctx, Hloss.
    unfold loss_value in Hinf.
    cbv [lift andThen when emit pure sys_exit]. rewrite Hinf.
    destruct (data_iter_step mod accum_iter args =? 0)%Z; reflexivity. }
  split; [exact Hstep|]. now apply train_loop_stops.
Qed.

Lemma save_guard_zero_divisor (args : Args) (data_iter_step : Z) :
  (0 <= save_iteration_interval args < accum_iter args)%Z ->
  save_guard args data_iter_step true = inl ZeroDivisionError /\
  save_guard args data_iter_step false = inr false.
Proof.
  intros H. unfold save_guard.
  rewrite !floordiv_value by lia. rewrite Z.div_small by lia.
  split; reflexivity.
Qed.

Lemma save_guard_defined (args : Args) (data_iter_step : Z)
      (update_grad : bool) :
  (0 < accum_iter args <= save_iteration_interval args)%Z ->
  exists b, save_guard args data_iter_step update_grad = inr b.
Proof.
  intros H. unfold save_guard. rewrite !floordiv_value by lia.
  assert (0 < save_iteration_interval args / accum_iter args)%Z
    by (apply Z.div_str_pos; lia).
  destruct update_grad; cbn [bind]; [|now eexists].
  rewrite modulo_value by lia. now eexists.
Qed.

(** C10: the guard of the checkpoint within the epoch divides by
    [save_iteration_interval // accum_iter]. With
    [0 < accum_iter <= save_iteration_interval] the guard has a value on
    every step. With [0 <= save_iteration_interval < accum_iter] the divisor
    is 0: the guard of a step that does not update is [False] without the
    division, and every step that updates the gradients and reaches the
    guard raises [ZeroDivisionError] there, after the optimizer update and
    without a checkpoint, which ends the loop. *)
Theorem checkpoint_guard_needs_interval
        (args : Args) (epoch start : Z) (pre post : list Batch)
        (batch_data : Batch) (dpo_loss g : Tensor)
        (done : list (Effect Tensor Batch)) :
  let data_iter_step := (start + Z.of_nat (List.length pre))%Z in
  let loss := div_int (total_loss Tensor add scale dpo_loss (model batch_data))
                      (accum_iter args) in
  let clip := if Qle_bool (clip_grad args) 0 then None
              else Some (clip_grad args) in
  let seen :=
    ((if (data_iter_step mod accum_iter args =? 0)%Z
      then [AdjustLearningRate data_iter_step] else [])
     ++ [Forward batch_data; ScaleAndStep loss true clip;
         if any_isinf g then PrintGradInf else MeterGradNorm g;
         ZeroGrad; Synchronize; MeterUpdate (item dpo_loss)]
     ++ (if ((data_iter_step + 1) mod log_steps args =? 0)%Z
         then [LogMetrics data_iter_step] else []))%list in
  ((0 < accum_iter args <= save_iteration_interval args)%Z ->
     forall s update_grad, exists b, save_guard args s update_grad = inr b) /\
  ((0 <= save_iteration_interval args < accum_iter args)%Z ->
     floordiv (save_iteration_interval args) (accum_iter args) = inr 0%Z /\
     (forall s, save_guard args s true = inl ZeroDivisionError) /\
     (forall s, save_guard args s false = inr false) /\
     (((data_iter_step + 1) mod accum_iter args = 0)%Z ->
      autocast_ctx (precision args) = inr tt ->
      lookup "loss" (dpo_output (model batch_data)) = inr dpo_loss ->
      isfinite (item (total_loss Tensor add scale dpo_loss (model batch_data)))
        = true ->
      loss_scaler loss true clip = Some g ->
      log_steps args <> 0%Z ->
      loop args epoch start pre = (done, inr tt) ->
      step args epoch data_iter_step batch_data
        = (seen, inl (Raise ZeroDivisionError)) /\
      epoch_run args epoch start (pre ++ batch_data :: post)%list
        = ((done ++ seen)%list, inl (Raise ZeroDivisionError)))).
Proof.
  intros data_iter_step loss clip seen. split.
  - intros H s ug. now apply save_guard_defined.
  - intros H. split; [|split; [|split]].
    + rewrite floordiv_value by lia. now rewrite Z.div_small by lia.
    + intros s. now apply save_guard_zero_divisor.
    + intros s. now apply save_guard_zero_divisor.
    + intros Hupd Hctx Hloss Hfin Hnorm Hlog Hpre.
      assert (step args epoch data_iter_step batch_data
              = (seen, inl (Raise ZeroDivisionError))) as Hstep.
      { unfold step, train_step, seen. cbv zeta.
        rewrite !modulo_value by lia. rewrite Hctx, Hloss.
        cbv [lift andThen when emit pure sys_exit raise].
        rewrite Hfin, Hupd. cbn [negb Z.eqb]. fold loss clip. rewrite Hnorm.
        rewrite (proj1 (save_guard_zero_divisor args data_iter_step H)).
        destruct (data_iter_step mod accum_iter args =? 0)%Z;
          destruct ((data_iter_step + 1) mod log_steps args =? 0)%Z;
          destruct (any_isinf g); reflexivity. }
      split; [exact Hstep|]. now apply train_loop_stops.
Qed.

End EngineFacts.

(** ** The training driver on a small run *)

Section EngineRun.
Import Py Engine Samples.

Example epoch_diverges :
  toy_epoch (toy_args 2 4) 0 0 [Finite 1; NaN; Finite 2] =
    ([AdjustLearningRate 0; Forward (Finite 1);
      ScaleAndStep (Finite 1) false None; Synchronize;
      MeterUpdate (Finite 1);
      Forward NaN; PrintLoss NaN],
     inl (Exit 1)).
Proof. reflexivity. Qed.

Example epoch_saves :
  toy_epoch (toy_args 1 2) 0 0 [Finite 1; Finite 2] =
    ([AdjustLearningRate 0; Forward (Finite 1);
      ScaleAndStep (Finite 1) true None; MeterGradNorm (Finite 1); ZeroGrad;
      Synchronize; MeterUpdate (Finite 1);
      AdjustLearningRate 1; Forward (Finite 2);
      ScaleAndStep (Finite 2) true None; MeterGradNorm (Finite 2); ZeroGrad;
      Synchronize; MeterUpdate (Finite 2); SaveCheckpoint 0 1],
     inr tt).
Proof. reflexivity. Qed.

Lemma non_finite_loss_exits_witness :
  toy_epoch (toy_args 2 4) 0 0 ([Finite 1] ++ NaN :: [Finite 2]) =
    ([AdjustLearningRate 0; Forward (Finite 1);
      ScaleAndStep (Finite 1) false None; Synchronize;
      MeterUpdate (Finite 1)]
     ++ [Forward NaN; PrintLoss NaN],
     inl (Exit 1))%list.
Proof.
  refine (proj2 (non_finite_loss_exits PyFloat (fun a _ => a) (fun a _ => a)
                   (fun a _ => a) (fun a => a) (fun a => negb (isfinite a))
                   PyFloat toy_model toy_scaler (toy_args 2 4) 0 0
                   [Finite 1] [Finite 2] NaN NaN _ _ _ _ _ _)).
  - discriminate.
  - reflexivity.
  - reflexivity.
  - reflexivity.
  - reflexivity.
Defined.

(** C10 as it is worded fails. With [accum_iter = 2] and
    [save_iteration_interval = -1], which is below [accum_iter], the divisor
    [(-1) // 2] is [-1] and not 0: the guard has a value, and the epoch
    runs past its first update step, where it saves a checkpoint, without
    a division by zero. *)
Lemma negative_interval_divisor_not_zero :
  let args := toy_args 2 (-1) in
  (save_iteration_interval args < accum_iter args)%Z /\
  floordiv (save_iteration_interval args) (accum_iter args) = inr (-1)%Z /\
  save_guard args 1 true = inr true /\
  toy_epoch args 0 0 [Finite 1; Finite 2; Finite 3] =
    ([AdjustLearningRate 0; Forward (Finite 1);
      ScaleAndStep (Finite 1) false None; Synchronize;
      MeterUpdate (Finite 1);
      Forward (Finite 2); ScaleAndStep (Finite 2) true None;
      MeterGradNorm (Finite 2); ZeroGrad; Synchronize;
      MeterUpdate (Finite 2); SaveCheckpoint 0 1;
      AdjustLearningRate 2; Forward (Finite 3);
      ScaleAndStep (Finite 3) false None; Synchronize;
      MeterUpdate (Finite 3)],
     inr tt).
Proof. cbv zeta. repeat split. Qed.

Lemma checkpoint_guard_needs_interval_witness :
  toy_epoch (toy_args 2 1) 0 0 ([Finite 1] ++ Finite 2 :: [Finite 3]) =
    ([AdjustLearningRate 0; Forward (Finite 1);
      ScaleAndStep (Finite 1) false None; Synchronize;
      MeterUpdate (Finite 1)]
     ++ [Forward (Finite 2); ScaleAndStep (Finite 2) true None;
         MeterGradNorm (Finite 2); ZeroGrad; Synchronize;
         MeterUpdate (Finite 2)],
     inl (Raise ZeroDivisionError))%list.
Proof.
  refine (proj2 (proj2 (proj2 (proj2 (proj2
            (checkpoint_guard_needs_interval PyFloat (fun a _ => a)
               (fun a _ => a) (fun a _ => a) (fun a => a)
               (fun a => negb (isfinite a)) PyFloat toy_model toy_scaler
               (toy_args 2 1) 0 0 [Finite 1] [Finite 3] (Finite 2)
               (Finite 2) (Finite 2) _) _))) _ _ _ _ _ _ _)).
  - cbn. lia.
  - reflexivity.
  - reflexivity.
  - reflexivity.
  - reflexivity.
  - reflexivity.
  - discriminate.
  - reflexivity.
Defined.

End EngineRun.

(** * Further properties of the code *)

(** ** The worker's stream as a whole *)

Section WorkerCoverage.
Import PyStr Protocol Worker Vocabulary.

Lemma stream_loop_unwired (conv_sep : string) (records : list StreamChunk) :
  stream_loop conv_sep records None = None.
Proof.
  induction records as [|r records IH]; [reflexivity|].
  cbn [stream_loop]. unfold stream_body.
  destruct (end_of_content (detect conv_sep r)); cbn [negb put_if_wired];
    [reflexivity|].
  destruct (String.length (text (detect conv_sep r)) <? String.length conv_sep)%nat;
    exact IH.
Qed.

Lemma stream_loop_shape (conv_sep : string) (records : list StreamChunk)
      (q : Queue Message) :
  stream_loop conv_sep records None = None /\
  exists body tail,
    stream_loop conv_sep records (Some q) =
      Some (q ++ map Chunk body ++ map Chunk tail)%list /\
    Forall (fun c => end_of_content c = false) body /\
    (tail = [] \/ exists final, tail = [final] /\ end_of_content final = true) /\
    (tail = [] <->
     Forall (fun r => end_of_content (detect conv_sep r) = false) records).
Proof.
  split; [apply stream_loop_unwired|].
  revert q. induction records as [|r records IH]; intros q.
  - exists [], []. cbn. rewrite app_nil_r.
    repeat split; auto.
  - cbn [stream_loop]. unfold stream_body.
    destruct (end_of_content (detect conv_sep r)) eqn:Hd; cbn [negb].
    + exists [], [detect conv_sep r]. cbn [put_if_wired map app].
      split; [reflexivity|]. split; [constructor|].
      split; [right; now eexists|].
      split; [discriminate|]. intros H. inversion H; congruence.
    + destruct (String.length (text (detect conv_sep r)) <? String.length conv_sep)%nat.
      * destruct (IH q) as [body [tail [Hrun [Hbody [Htail Hiff]]]]].
        exists body, tail. split; [exact Hrun|]. split; [exact Hbody|].
        split; [exact Htail|]. rewrite Hiff. split; intros H.
        -- now constructor.
        -- now inversion H.
      * cbn [put_if_wired].
        destruct (IH (put q (Chunk
                    (mkChunk (slice_to (text (detect conv_sep r))
                                       (- Z.of_nat (String.length conv_sep)))
                             false))))
          as [body [tail [Hrun [Hbody [Htail Hiff]]]]].
        eexists (_ :: body), tail. split.
        { rewrite Hrun. unfold put. cbn [map app].
          now rewrite <- app_assoc. }
        split; [constructor; [reflexivity | exact Hbody]|].
        split; [exact Htail|]. rewrite Hiff. split; intros H.
        -- now constructor.
        -- now inversion H.
Qed.

(** What a worker puts on the response queue for one request, whatever the
    model produces: chunks with [end_of_content = false], then at most one
    chunk with [end_of_content = true], which is the last; there is such a
    last chunk exactly when some record is closed after separator detection.
    A worker without response queue puts nothing. *)
Theorem stream_has_one_end (conv_sep : string) (records : list StreamChunk)
        (q : Queue Message) :
  stream_loop conv_sep records None = None /\
  exists body tail,
    stream_loop conv_sep records (Some q) =
      Some (q ++ map Chunk body ++ map Chunk tail)%list /\
    Forall (fun c => end_of_content c = false) body /\
    (tail = [] \/ exists final, tail = [final] /\ end_of_content final = true) /\
    (tail = [] <->
     Forall (fun r => end_of_content (detect conv_sep r) = false) records).
Proof. exact (stream_loop_shape conv_sep records q). Qed.

Lemma take_append_more (a x : string) (j : nat) :
  take (String.length a + j) (a ++ x) = a ++ take j x.
Proof. induction a as [|c a IH]; simpl; [reflexivity | now rewrite IH]. Qed.

Lemma length_drop (n : nat) (s : string) :
  String.length (drop n s) = (String.length s - n)%nat.
Proof.
  revert s. induction n as [|n IH]; intros [|c s]; simpl; try reflexivity.
  apply IH.
Qed.

(** The text shown only grows: when the model extends an open record by
    [more], with the record still open, the text put for the longer record
    is the text put for the shorter one followed by as many characters as
    were added. *)
Theorem open_stream_grows
        (conv_sep : string) (r1 r2 : StreamChunk) (more : string)
        (rq1 rq2 : option (Queue Message)) :
  end_of_content (detect conv_sep r1) = false ->
  end_of_content (detect conv_sep r2) = false ->
  text r2 = text r1 ++ more ->
  (String.length conv_sep <= String.length (text r1))%nat ->
  exists kept grown,
    stream_body conv_sep r1 rq1 = (put_if_wired rq1 (mkChunk kept false), Next) /\
    stream_body conv_sep r2 rq2 =
      (put_if_wired rq2 (mkChunk (kept ++ grown) false), Next) /\
    String.length grown = String.length more.
Proof.
  intros H1 H2 Ht Hlen.
  destruct (detect_open conv_sep r1 H1) as [Hd1 [He1 [_ Hpos]]].
  destruct (detect_open conv_sep r2 H2) as [Hd2 [He2 _]].
  set (m := (String.length (text r1) - String.length conv_sep)%nat).
  exists (take m (text r1)), (take (String.length more) (drop m (text r1) ++ more)).
  assert (String.length (take m (text r1)) = m) as Hk
      by (apply length_take; unfold m; lia).
  split; [|split].
  - unfold stream_body. rewrite Hd1, He1. cbn [negb].
    rewrite (proj2 (Nat.ltb_ge _ _) Hlen).
    now rewrite slice_to_neg by lia.
  - unfold stream_body. rewrite Hd2, He2. cbn [negb].
    assert (String.length conv_sep <= String.length (text r2))%nat as Hlen2
        by (rewrite Ht, length_append; lia).
    rewrite (proj2 (Nat.ltb_ge _ _) Hlen2).
    rewrite slice_to_neg by lia. do 3 f_equal.
    rewrite Ht, length_append.
    replace (String.length (text r1) + String.length more
             - String.length conv_sep)%nat
      with (String.length (take m (text r1)) + String.length more)%nat
      by (rewrite Hk; unfold m; lia).
    rewrite <- (take_drop m (text r1)) at 2.
    rewrite append_assoc. apply take_append_more.
  - apply length_take. rewrite length_append. lia.
Qed.

Lemma open_stream_grows_witness :
  exists kept grown,
    stream_body "###" (mkChunk "Hello wo" false) (Some []) =
      (Some [Chunk (mkChunk kept false)], Next) /\
    stream_body "###" (mkChunk "Hello world" false) (Some []) =
      (Some [Chunk (mkChunk (kept ++ grown) false)], Next) /\
    String.length grown = 3%nat.
Proof.
  exact (open_stream_grows "###" (mkChunk "Hello wo" false)
           (mkChunk "Hello world" false) "rld" (Some []) (Some [])
           eq_refl eq_refl eq_refl ltac:(simpl; lia)).
Defined.

(** When the model ends its answer itself, with [end_of_content = true] and
    no separator in the text, the text is put as it is, neither stripped
    nor given a newline, and the loop ends there. *)
Theorem model_end_sent_verbatim
        (conv_sep : string) (pre post : list StreamChunk) (r : StreamChunk)
        (rq : option (Queue Message)) :
  Forall (fun x => end_of_content (detect conv_sep x) = false) pre ->
  ~ occurs conv_sep (text r) ->
  end_of_content r = true ->
  stream_loop conv_sep (pre ++ r :: post) rq =
  put_if_wired (stream_loop conv_sep pre rq) r.
Proof.
  intros Hpre Hno Hr. rewrite stream_loop_open by assumption.
  assert (detect conv_sep r = r) as Hd.
  { unfold detect, find.
    now rewrite (find_from_present conv_sep (text r) 0%Z Hno). }
  cbn [stream_loop]. unfold stream_body. now rewrite Hd, Hr.
Qed.

Lemma model_end_sent_verbatim_witness :
  stream_loop "###" ([mkChunk "Hi there" false] ++ mkChunk "Hi there " true
                       :: [mkChunk "more" false]) (Some []) =
  put_if_wired (stream_loop "###" [mkChunk "Hi there" false] (Some []))
               (mkChunk "Hi there " true).
Proof.
  apply model_end_sent_verbatim.
  - constructor; [reflexivity | constructor].
  - apply (find_from_absent _ _ 0%Z); [lia | reflexivity].
  - reflexivity.
Defined.

End WorkerCoverage.

(** ** The front end on the queues it can meet *)

Section OrchestratorCoverage.
Import PyStr Py Protocol Worker Grounding Box Orchestrator Server Vocabulary.

(** [undo] takes back [show_user_input]: the message box is cleared, the
    conversation is one turn longer, and undoing gives the conversation
    back. *)
Theorem undo_after_show_user_input (msg : string) (chatbot : Conversation) :
  fst (show_user_input msg chatbot) = "" /\
  List.length (snd (show_user_input msg chatbot)) = S (List.length chatbot) /\
  undo (snd (show_user_input msg chatbot)) = chatbot.
Proof.
  unfold show_user_input. cbn [fst snd]. split; [reflexivity|]. split.
  - rewrite length_app. cbn [List.length]. lia.
  - unfold undo. rewrite length_app. cbn [List.length].
    destruct (Nat.ltb_spec 0 (List.length chatbot + 1)); [|lia].
    apply list_slice_to_last.
Qed.

(** Without a [Ready] in the response queue the turn never starts: every
    chunk waiting there is received and dropped, no request is sent, and
    the generator waits for ever. *)
Theorem no_ready_no_request
        (files : Files) (stray : list StreamChunk)
        (rqs : list (Queue GenerationRequest)) (img_path : option string)
        (chatbot : Conversation) (max_gen_len : Z) (gen_t top_p : Q)
        (img_transform : string) :
  stream_model_output files (map Chunk stray) rqs img_path chatbot max_gen_len
                      gen_t top_p img_transform =
  mkRun (map Received (map Chunk stray)) Blocked [] rqs chatbot.
Proof.
  unfold stream_model_output. now rewrite wait_ready_starved.
Qed.

Lemma relay_sends_nothing (files : Files) (img_path : option string)
      (rqs : list (Queue GenerationRequest)) (q : Queue Message) :
  forall chatbot,
    request_queues (relay files img_path rqs chatbot q) = rqs /\
    forall i r, ~ In (Sent i r) (events (relay files img_path rqs chatbot q)).
Proof.
  induction q as [|m q IH]; intros chatbot.
  - split; [reflexivity | intros i r []].
  - cbn [relay]. destruct m as [|c].
    + split; [reflexivity|]. intros i r [H|[]]. discriminate.
    + destruct (set_last_bot chatbot (escape (text c))) as [e|chatbot'].
      * split; [reflexivity|]. intros i r [H|[]]. discriminate.
      * destruct (end_of_content c).
        -- destruct (extract_and_color (text c)) as [e|[boxed colored_piece]].
           ++ split; [reflexivity|]. intros i r [H|[]]. discriminate.
           ++ destruct (draw_box_on_image files img_path boxed) as [e|img].
              ** split; [reflexivity|]. intros i r [H|[]]. discriminate.
              ** split; [reflexivity|]. intros i r [H|[H|[]]]; discriminate.
        -- destruct (IH chatbot') as [Hq Hev]. unfold first.
           cbn [request_queues events]. split; [exact Hq|].
           intros i r [H|[H|H]]; try discriminate. exact (Hev i r H).
Qed.

(** Once a [Ready] has come, every worker gets the request, whatever the
    response queue holds after it: each request queue receives one request,
    the same for all, sent in the order of the ranks before anything else
    is received, and nothing is sent afterwards. *)
Theorem every_worker_gets_the_request
        (files : Files) (stray : list StreamChunk) (rest : Queue Message)
        (rqs : list (Queue GenerationRequest)) (img_path : option string)
        (chatbot : Conversation) (max_gen_len : Z) (gen_t top_p : Q)
        (img_transform : string) :
  let req := mkRequest img_path (chatbot_for_model chatbot) max_gen_len gen_t
                       top_p img_transform in
  let run := stream_model_output files (map Chunk stray ++ Ready :: rest)%list
               rqs img_path chatbot max_gen_len gen_t top_p img_transform in
  request_queues run = map (fun q => put q req) rqs /\
  exists later,
    events run =
      (map Received (map Chunk stray) ++ [Received Ready]
       ++ map (fun i => Sent i req) (seq 0 (List.length rqs)) ++ later)%list /\
    forall i r, ~ In (Sent i r) later.
Proof.
  cbv zeta. unfold stream_model_output. rewrite wait_ready_stray.
  rewrite (fan_out_all rqs img_path chatbot max_gen_len gen_t top_p
             img_transform 0).
  match goal with
  | |- context [relay ?f ?i ?q ?c ?r] =>
      destruct (relay_sends_nothing f i q r c) as [Hq Hev];
      set (tail := relay f i q c r) in *
  end.
  unfold first. cbn [request_queues events]. split; [exact Hq|].
  exists (events tail). split; [now rewrite <- !app_assoc | exact Hev].
Qed.

Lemma turn_runs_dry
        (files : Files) (stray body : list StreamChunk)
        (rqs : list (Queue GenerationRequest)) (img_path : option string)
        (turns : Conversation) (u b : option string)
        (max_gen_len : Z) (gen_t top_p : Q) (img_transform : string) :
  Forall (fun c => end_of_content c = false) body ->
  let chatbot := (turns ++ [(u, b)])%list in
  let req := mkRequest img_path (chatbot_for_model chatbot) max_gen_len gen_t
                       top_p img_transform in
  let shown c := (turns ++ [(u, Some (escape (text c)))])%list in
  let run := stream_model_output files
               (map Chunk stray ++ Ready :: map Chunk body)%list
               rqs img_path chatbot max_gen_len gen_t top_p img_transform in
  outcome run = Blocked /\
  response_queue run = [] /\
  events run =
    (map Received (map Chunk stray) ++ [Received Ready]
     ++ map (fun i => Sent i req) (seq 0 (List.length rqs))
     ++ flat_map (fun c => [Received (Chunk c); Yielded (shown c) None None]) body)%list.
Proof.
  intros Hbody. cbv zeta. unfold stream_model_output.
  rewrite wait_ready_stray.
  rewrite (fan_out_all rqs img_path _ max_gen_len gen_t top_p img_transform 0).
  match goal with
  | |- context [relay ?f ?i ?q ?c _] =>
      destruct (relay_open_chunks f i q turns u body [] Hbody b) as [b' Hb']
  end.
  rewrite app_nil_r in Hb'. rewrite Hb'. rewrite first_first.
  cbn [relay first events outcome response_queue].
  repeat split. now rewrite app_nil_r, <- !app_assoc.
Qed.

(** A stream that stops before a chunk with [end_of_content]: every chunk is
    received and yielded, the queue is empty, and the generator waits for
    ever in [get]. *)
Theorem stream_without_end_blocks
        (files : Files) (stray body : list StreamChunk)
        (rqs : list (Queue GenerationRequest)) (img_path : option string)
        (turns : Conversation) (u b : option string)
        (max_gen_len : Z) (gen_t top_p : Q) (img_transform : string) :
  Forall (fun c => end_of_content c = false) body ->
  let chatbot := (turns ++ [(u, b)])%list in
  let req := mkRequest img_path (chatbot_for_model chatbot) max_gen_len gen_t
                       top_p img_transform in
  let shown c := (turns ++ [(u, Some (escape (text c)))])%list in
  let run := stream_model_output files
               (map Chunk stray ++ Ready :: map Chunk body)%list
               rqs img_path chatbot max_gen_len gen_t top_p img_transform in
  outcome run = Blocked /\
  response_queue run = [] /\
  events run =
    (map Received (map Chunk stray) ++ [Received Ready]
     ++ map (fun i => Sent i req) (seq 0 (List.length rqs))
     ++ flat_map (fun c => [Received (Chunk c); Yielded (shown c) None None]) body)%list.
Proof. exact (turn_runs_dry files stray body rqs img_path turns u b max_gen_len
                gen_t top_p img_transform). Qed.

Lemma stream_without_end_blocks_witness :
  outcome (stream_model_output (fun _ => None)
             (map Chunk [] ++ Ready :: map Chunk [mkChunk "Hel" false])%list
             [[]] None ([] ++ [(Some "hi", None)])%list 64 (1 # 10) (3 # 4)
             "padded_resize") = Blocked.
Proof.
  refine (proj1 (stream_without_end_blocks (fun _ => None) []
                   [mkChunk "Hel" false] [[]] None [] (Some "hi") None 64
                   (1 # 10) (3 # 4) "padded_resize" _)).
  constructor; [reflexivity | constructor].
Defined.

(** A second [Ready] that comes before a chunk with [end_of_content] is
    taken for a chunk: it is removed from the queue and subscripting it
    raises [TypeError]. *)
Theorem ready_in_stream_raises
        (files : Files) (stray body : list StreamChunk) (rest : Queue Message)
        (rqs : list (Queue GenerationRequest)) (img_path : option string)
        (turns : Conversation) (u b : option string)
        (max_gen_len : Z) (gen_t top_p : Q) (img_transform : string) :
  Forall (fun c => end_of_content c = false) body ->
  let chatbot := (turns ++ [(u, b)])%list in
  let req := mkRequest img_path (chatbot_for_model chatbot) max_gen_len gen_t
                       top_p img_transform in
  let shown c := (turns ++ [(u, Some (escape (text c)))])%list in
  let run := stream_model_output files
               (map Chunk stray ++ Ready :: map Chunk body ++ Ready :: rest)%list
               rqs img_path chatbot max_gen_len gen_t top_p img_transform in
  outcome run = Raised TypeError /\
  response_queue run = rest /\
  events run =
    (map Received (map Chunk stray) ++ [Received Ready]
     ++ map (fun i => Sent i req) (seq 0 (List.length rqs))
     ++ flat_map (fun c => [Received (Chunk c); Yielded (shown c) None None]) body
     ++ [Received Ready])%list.
Proof.
  intros Hbody. cbv zeta. unfold stream_model_output.
  rewrite wait_ready_stray.
  rewrite (fan_out_all rqs img_path _ max_gen_len gen_t top_p img_transform 0).
  match goal with
  | |- context [relay ?f ?i ?q ?c _] =>
      destruct (relay_open_chunks f i q turns u body (Ready :: rest) Hbody b)
        as [b' Hb']
  end.
  rewrite Hb', first_first.
  cbn [relay first events outcome response_queue].
  repeat split. now rewrite <- !app_assoc.
Qed.

Lemma ready_in_stream_raises_witness :
  outcome (stream_model_output (fun _ => None)
             (map Chunk [] ++ Ready :: map Chunk [mkChunk "Hel" false]
                ++ Ready :: [])%list
             [[]] None ([] ++ [(Some "hi", None)])%list 64 (1 # 10) (3 # 4)
             "padded_resize") = Raised TypeError.
Proof.
  refine (proj1 (ready_in_stream_raises (fun _ => None) []
                   [mkChunk "Hel" false] [] [[]] None [] (Some "hi") None 64
                   (1 # 10) (3 # 4) "padded_resize" _)).
  constructor; [reflexivity | constructor].
Defined.

(** On an empty conversation the request is still sent to every worker, and
    the first chunk then raises [IndexError]: there is no last turn to
    write the text into. *)
Theorem empty_conversation_raises
        (files : Files) (stray : list StreamChunk) (c : StreamChunk)
        (rest : Queue Message) (rqs : list (Queue GenerationRequest))
        (img_path : option string) (max_gen_len : Z) (gen_t top_p : Q)
        (img_transform : string) :
  let req := mkRequest img_path [] max_gen_len gen_t top_p img_transform in
  stream_model_output files (map Chunk stray ++ Ready :: Chunk c :: rest)%list
                      rqs img_path [] max_gen_len gen_t top_p img_transform =
  mkRun (map Received (map Chunk stray) ++ [Received Ready]
         ++ map (fun i => Sent i req) (seq 0 (List.length rqs))
         ++ [Received (Chunk c)])%list
        (Raised IndexError) rest (map (fun q => put q req) rqs) [].
Proof.
  cbv zeta. unfold stream_model_output. rewrite wait_ready_stray.
  rewrite (fan_out_all rqs img_path [] max_gen_len gen_t top_p img_transform 0).
  cbn [relay set_last_bot raise first events outcome response_queue
       request_queues chatbot_after chatbot_for_model map].
  unfold first. cbn [events outcome response_queue request_queues
                     chatbot_after].
  now rewrite <- !app_assoc.
Qed.



(** One turn of a worker and the front end, run: the worker's second
    [Ready] is what the turn leaves in the queue. *)
Example worker_turn_run :
  model_worker "###"
    (fun _ => inr [mkChunk "Hello" false; mkChunk "Hello ###" false])
    [Samples.hello_request None] (Some []) =
    Waiting (Some [Ready; Chunk (mkChunk "He" false);
                   Chunk (mkChunk ("Hello" ++ NL) true); Ready]) /\
  model_worker "###" (fun _ => inr [mkChunk "Hello" false])
    [Samples.hello_request None] (Some []) =
    Waiting (Some [Ready; Chunk (mkChunk "He" false); Ready]) /\
  outcome (stream_model_output (fun _ => None)
             [Ready; Chunk (mkChunk "He" false); Ready] [[]] None
             [(Some "hi", None)] 64 (1 # 10) (3 # 4) "padded_resize")
    = Raised TypeError.
Proof. repeat split. Qed.

(** The main block: without [--gpu_ids] it takes the GPUs [0 .. n_gpus - 1],
    one by default, and refuses a count that is not positive; it starts one
    worker per GPU, each with a request queue; the barrier counts the
    workers and the front end; and the worker of rank 0, and no other, is
    given the response queue. *)
Theorem main_wires_rank_zero :
  (forall n_gpus,
      main None n_gpus =
        let n := match n_gpus with Some n => n | None => 1%Z end in
        if (0 <? n)%Z
        then inr (mkSetup (start_workers 0 (map Z.of_nat (seq 0 (Z.to_nat n))))
                          (Z.to_nat n) (Z.to_nat n + 1))
        else inl AssertionError) /\
  (forall gpu_ids,
      main (Some gpu_ids) None =
        inr (mkSetup (start_workers 0 gpu_ids) (List.length gpu_ids)
                     (List.length gpu_ids + 1))) /\
  (forall gpu_ids k,
      List.length (start_workers k gpu_ids) = List.length gpu_ids /\
      map gpu_id (start_workers k gpu_ids) = gpu_ids /\
      map rank (start_workers k gpu_ids) = seq k (List.length gpu_ids) /\
      forall w, In w (start_workers k gpu_ids) ->
                has_response_queue w = (rank w =? 0)%nat).
Proof.
  assert (forall gpu_ids k,
             List.length (start_workers k gpu_ids) = List.length gpu_ids) as Hlen.
  { induction gpu_ids as [|g ids IH]; intros k; [reflexivity|].
    cbn [start_workers List.length]. now rewrite IH. }
  split; [|split].
  - intros n_gpus. unfold main, resolve_gpu_ids. cbv zeta.
    destruct (0 <? match n_gpus with Some n => n | None => 1%Z end)%Z;
      [|reflexivity].
    cbn [bind ret]. now rewrite Hlen, length_map, length_seq.
  - intros gpu_ids. unfold main, resolve_gpu_ids. cbn [bind ret].
    now rewrite Hlen.
  - induction gpu_ids as [|g ids IH]; intros k.
    + repeat split. intros w [].
    + destruct (IH (S k)) as [H1 [H2 [H3 H4]]].
      cbn [start_workers List.length map seq gpu_id rank].
      rewrite H1, H2, H3. repeat split.
      intros w [<-|Hin]; [reflexivity | now apply H4].
Qed.

Example main_two_gpus :
  main None (Some 2%Z) =
    inr (mkSetup [mkHandle 0 0 true; mkHandle 1 1 false] 2 3) /\
  main None (Some 0%Z) = inl AssertionError /\
  main None None = inr (mkSetup [mkHandle 0 0 true] 1 2).
Proof. repeat split; reflexivity. Qed.

End OrchestratorCoverage.

(** ** Escaping and the history sent to the workers *)

Section EscapeCoverage.
Import PyStr Py Protocol Orchestrator Vocabulary.

Lemma occurs_char_app (x : ascii) (a b : string) :
  occurs (String x "") (a ++ b) ->
  occurs (String x "") a \/ occurs (String x "") b.
Proof.
  induction a as [|c a IH]; intros [p [q H]]; [right; now exists p, q|].
  destruct p as [|d p]; cbn [append] in H.
  - injection H as -> _. left. now exists "", a.
  - injection H as _ H. destruct IH as [[p' [q' ->]]|Hb].
    + now exists p, q.
    + left. now exists (String c p'), q'.
    + now right.
Qed.

Lemma occurs_char_single (x c : ascii) :
  occurs (String x "") (String c "") -> c = x.
Proof.
  intros [[|d p] [q H]]; cbn [append] in H.
  - now injection H.
  - injection H as _ H. destruct p; discriminate.
Qed.

Lemma escape_both_no_angle (x c : ascii) :
  (x = "<" \/ x = ">")%char -> ~ occurs (String x "") (escape_both c).
Proof.
  intros Hx Hocc. unfold escape_both in Hocc.
  destruct (Ascii.eqb_spec c "<") as [->|Hlt].
  - assert (find "&lt;" (String x "") = (-1)%Z) as Hf
        by (destruct Hx as [->| ->]; reflexivity).
    exact (find_from_absent _ _ 0%Z ltac:(lia) Hf Hocc).
  - destruct (Ascii.eqb_spec c ">") as [->|Hgt].
    + assert (find "&gt;" (String x "") = (-1)%Z) as Hf
          by (destruct Hx as [->| ->]; reflexivity).
      exact (find_from_absent _ _ 0%Z ltac:(lia) Hf Hocc).
    + apply occurs_char_single in Hocc. destruct Hx; congruence.
Qed.

(** What is shown never holds an angle bracket: after the escaping there is
    no ["<"] and no [">"] left in the text. *)
Theorem escaped_text_has_no_angle_bracket (t : string) :
  ~ occurs "<" (escape t) /\ ~ occurs ">" (escape t).
Proof.
  rewrite escape_expand.
  assert (forall x, (x = "<" \/ x = ">")%char ->
                    ~ occurs (String x "") (expand escape_both t)) as H.
  { intros x Hx. induction t as [|c t IH]; cbn [expand].
    - intros [[|d p] [q H]]; discriminate.
    - intros Hocc. apply occurs_char_app in Hocc. destruct Hocc as [Hc|Ht].
      + exact (escape_both_no_angle x c Hx Hc).
      + exact (IH Ht). }
  split; apply H; [now left | now right].
Qed.

Lemma replace_scan_absent (c : ascii) (old new s : string) :
  ~ occurs (String c old) s -> replace_scan (String c old) new 0 s = s.
Proof.
  induction s as [|d s IH]; intros Hno; [reflexivity|].
  rewrite replace_scan_miss by now apply occurs_head.
  now rewrite (IH (occurs_tail _ _ _ Hno)).
Qed.

Lemma unescape_plain (t : string) :
  ~ occurs "&lt;" t -> ~ occurs "&gt;" t -> unescape t = t.
Proof.
  intros Hlt Hgt. unfold unescape, replace.
  rewrite (replace_scan_absent "&" "lt;" "<" t Hlt).
  exact (replace_scan_absent "&" "gt;" ">" t Hgt).
Qed.

(** The history that the workers receive. When the conversation shown holds
    the user's messages as typed and the answers as escaped for display,
    with a pending last turn, the copy sent holds every answer that is free
    of ["&lt;"] and ["&gt;"] as the model produced it; the user's messages go
    through the unescaping too, which leaves those free of ["&lt;"] and
    ["&gt;"] as they were typed. *)
Theorem history_sent_is_raw
        (turns : list (string * string)) (msg : string) :
  Forall (fun t => ~ occurs "&lt;" (snd t) /\ ~ occurs "&gt;" (snd t)) turns ->
  chatbot_for_model
    (map (fun t => (Some (fst t), Some (escape (snd t)))) turns
     ++ [(Some msg, None)])%list =
  (map (fun t => (Some (unescape (fst t)), Some (snd t))) turns
   ++ [(Some (unescape msg), None)])%list /\
  (forall m, ~ occurs "&lt;" m -> ~ occurs "&gt;" m -> unescape m = m).
Proof.
  intros Hturns. split; [|exact unescape_plain].
  unfold chatbot_for_model. rewrite map_app. cbn [map fst snd option_map].
  f_equal. induction Hturns as [|t turns [Hlt Hgt] _ IH]; [reflexivity|].
  cbn [map fst snd option_map]. now rewrite IH, (unescape_escape _ Hlt Hgt).
Qed.

Lemma history_sent_is_raw_witness :
  chatbot_for_model
    (map (fun t => (Some (fst t), Some (escape (snd t))))
         [("where is the cat", "<p>cat</p>[0.1,0.2,0.3,0.4]")]
     ++ [(Some "and the dog", None)])%list =
  (map (fun t => (Some (unescape (fst t)), Some (snd t)))
       [("where is the cat", "<p>cat</p>[0.1,0.2,0.3,0.4]")]
   ++ [(Some (unescape "and the dog"), None)])%list.
Proof.
  refine (proj1 (history_sent_is_raw
                   [("where is the cat", "<p>cat</p>[0.1,0.2,0.3,0.4]")]
                   "and the dog" _)).
  constructor; [|constructor]. cbn [snd].
  split; apply (find_from_absent _ _ 0%Z); try lia; reflexivity.
Defined.

(** A message in which the user typed ["&lt;"] reaches the workers with a
    ["<"] in its place. *)
Example typed_entity_is_unescaped :
  chatbot_for_model [(Some "is a &lt; b", None)] = [(Some "is a < b", None)].
Proof. reflexivity. Qed.

End EscapeCoverage.

(** ** What the annotations can hold *)

Section GroundingCoverage.
Import PyStr Py Grounding Box Vocabulary.

Lemma findall_scan_no_tag (s : string) :
  ~ occurs "<p>" s -> forall k, findall_scan k s = [].
Proof.
  induction s as [|c s IH]; intros Hno k; [reflexivity|].
  cbn [findall_scan]. destruct k as [|k].
  - unfold match_at. rewrite (occurs_head _ _ Hno).
    apply IH. exact (occurs_tail _ _ _ Hno).
  - apply IH. exact (occurs_tail _ _ _ Hno).
Qed.

(** A text without the opening tag holds no annotation: the list is empty
    and the text comes back as it is. *)
Theorem text_without_tag_unchanged (input_string : string) :
  ~ occurs "<p>" input_string ->
  extract_and_color input_string = inr ([], input_string).
Proof.
  intros Hno. unfold extract_and_color, findall.
  now rewrite (findall_scan_no_tag _ Hno).
Qed.

Lemma text_without_tag_unchanged_witness :
  extract_and_color "The cat is at [0.1,0.2,0.3,0.4]." =
    inr ([], "The cat is at [0.1,0.2,0.3,0.4].").
Proof.
  apply text_without_tag_unchanged.
  apply (find_from_absent _ _ 0%Z); [lia | reflexivity].
Defined.

Lemma all_digits_app (a b : string) :
  all_digits a = true -> all_digits b = true -> all_digits (a ++ b) = true.
Proof.
  intros Ha Hb. induction a as [|c a IH]; [exact Hb|].
  cbn [append all_digits] in *. apply andb_true_iff in Ha.
  destruct Ha as [Hc Ha]. now rewrite Hc, (IH Ha).
Qed.

Lemma digits_value_nonneg (s : string) :
  all_digits s = true -> forall acc, (0 <= acc)%Z -> (0 <= digits_value acc s)%Z.
Proof.
  induction s as [|c s IH]; intros Hs acc Hacc; [exact Hacc|].
  cbn [all_digits digits_value] in *. apply andb_true_iff in Hs.
  destruct Hs as [Hc Hs]. apply IH; [exact Hs|].
  unfold isdigit in Hc. apply andb_true_iff in Hc. destruct Hc as [Hlo _].
  apply N.leb_le in Hlo. lia.
Qed.

Lemma float_nonneg (x : string) (q : Q) : float x = inr q -> 0 <= q.
Proof.
  unfold float. destruct (span isdigit x) as [ip s1] eqn:E.
  destruct ip as [|d ds]; [discriminate|].
  destruct s1 as [|c [|f fs]]; try discriminate.
  destruct ((c =? ".")%char && all_digits (String f fs)) eqn:Hc; [|discriminate].
  apply andb_true_iff in Hc. destruct Hc as [_ Hfp].
  apply span_all_digits in E.
  match goal with
  | |- ret (Qred ?m) = _ -> _ =>
      pose proof (Qred_correct m) as Hred; set (v := Qred m) in *
  end.
  intros H. injection H as <-.
  apply (proj2 (Qle_comp 0 0 (Qeq_refl 0) _ _ Hred)).
  unfold Qle. cbn [Qnum Qden]. rewrite Z.mul_1_r. cbn [Z.mul].
  apply digits_value_nonneg; [now apply all_digits_app | lia].
Qed.

Lemma mapM_Forall {A B : Type} (f : A -> Exc B) (P : B -> Prop) (l : list A) :
  (forall x y, f x = inr y -> P y) ->
  forall ys, mapM f l = inr ys -> Forall P ys.
Proof.
  intros Hf. induction l as [|x l IH]; intros ys; cbn [mapM].
  - intros H. injection H as <-. constructor.
  - destruct (f x) as [e|y] eqn:Hx; cbn [bind]; [discriminate|].
    destruct (mapM f l) as [e|ys'] eqn:Hl; cbn [bind]; [discriminate|].
    intros H. injection H as <-. constructor; [exact (Hf x y Hx) | now apply IH].
Qed.

Lemma coords_nonneg (list_str : string) :
  Forall (fun q => 0 <= q) (coords list_str).
Proof.
  apply (mapM_Forall float _ (findall_decimals list_str) float_nonneg).
  apply float_list_total.
Qed.

Lemma match_lazy_no_newline (s : string) :
  forall acc t list_str rest,
    match_lazy acc s = Some (t, list_str, rest) ->
    ~ occurs NL acc -> ~ occurs NL t.
Proof.
  induction s as [|c s IH]; intros acc t l rest; cbn [match_lazy].
  - destruct (match_tail "") as [[l' r']|]; [|discriminate].
    intros H. now injection H as <- _ _.
  - destruct (match_tail (String c s)) as [[l' r']|].
    + intros H. now injection H as <- _ _.
    + destruct (Ascii.eqb_spec c LF) as [|Hc]; [discriminate|].
      intros H Hacc. apply (IH _ _ _ _ H).
      intros Hocc. apply occurs_char_app in Hocc.
      destruct Hocc as [Ha|Hc']; [exact (Hacc Ha)|].
      apply occurs_char_single in Hc'. congruence.
Qed.

Lemma findall_scan_no_newline (s : string) :
  forall k, Forall (fun m => ~ occurs NL (fst m)) (findall_scan k s).
Proof.
  induction s as [|c s IH]; intros k; cbn [findall_scan]; [constructor|].
  destruct k as [|k]; [|apply IH].
  destruct (match_at (String c s)) as [[[t l] rest]|] eqn:E; [|apply IH].
  constructor; [|apply IH]. cbn [fst].
  unfold match_at in E.
  destruct (startswith (String c s) "<p>"); [|discriminate].
  apply (match_lazy_no_newline _ _ _ _ _ E).
  intros [[|d p] [q H]]; discriminate.
Qed.

(** What an entry can hold. The tagged text of an entry never holds a line
    break, since the pattern does not match across lines, and no coordinate
    is negative, since the pattern admits no sign. *)
Theorem entries_single_line_and_non_negative
        (input_string : string) (result : list Entry) (md : string) :
  extract_and_color input_string = inr (result, md) ->
  Forall (fun e : Entry =>
            ~ occurs NL (fst (fst e)) /\
            Forall (fun q => 0 <= q) (snd (fst e))) result.
Proof.
  destruct (extract_and_color_spec input_string) as [md' [Hrun _]].
  rewrite Hrun. intros H. injection H as <- _.
  pose proof (findall_scan_no_newline input_string 0) as Hnl.
  fold (findall input_string) in Hnl. clear Hrun.
  generalize 0%nat.
  induction Hnl as [|[t l] ms Ht _ IH]; intros i; cbn [entries_from].
  - constructor.
  - constructor; [|apply IH].
    cbn [fst snd] in *. split; [exact Ht | apply coords_nonneg].
Qed.

Lemma entries_single_line_and_non_negative_witness :
  Forall (fun e : Entry =>
            ~ occurs NL (fst (fst e)) /\
            Forall (fun q => 0 <= q) (snd (fst e)))
         [("cat", [1 # 10; 1 # 5; 7 # 20; 2 # 5], "red");
          ("dog", [1 # 2; 1 # 2; 1; 1], "blue")].
Proof.
  exact (entries_single_line_and_non_negative Samples.sample _ _ eq_refl).
Defined.

(** A span broken over two lines, or a bracket with a negative number, is
    not an annotation. *)
Example unmatched_annotations :
  extract_and_color ("<p>the" ++ NL ++ "cat</p>[0.1,0.2,0.3,0.4]") =
    inr ([], "<p>the" ++ NL ++ "cat</p>[0.1,0.2,0.3,0.4]") /\
  extract_and_color "<p>cat</p>[-0.1,0.2,0.3,0.4]" =
    inr ([], "<p>cat</p>[-0.1,0.2,0.3,0.4]").
Proof. split; reflexivity. Qed.

End GroundingCoverage.

(** ** When the boxes can be drawn *)

Section BoxCoverage.
Import PyStr Py Float Grounding Box Vocabulary.

(** When [draw_box_on_image] returns. Without a path, with a path that holds
    no file, or with a file that is not a picture, opening raises before
    anything is drawn. On a picture that opens, with annotations coloured
    from the palette, the call returns exactly when every annotation holds
    a whole number of boxes and, if there is a box at all, the font of the
    labels is found, the side and the offsets convert to [float], and no
    box is inverted once mapped: one annotation with a number of
    coordinates that is not a multiple of four, or one inverted box, and no
    picture comes back, even for the boxes before it. The picture that
    comes back has the size of the one opened and two drawing calls per
    box. *)
Theorem drawing_needs_whole_upright_boxes (files : Files) (l : list Entry) :
  draw_box_on_image files None l = inl AttributeError /\
  (forall path, files path = None ->
     draw_box_on_image files (Some path) l = inl FileNotFoundError) /\
  (forall path, files path = Some Font \/ files path = Some Other ->
     draw_box_on_image files (Some path) l = inl UnidentifiedImageError) /\
  (forall path W H,
     files path = Some (Picture W H) ->
     Forall (fun e => In (snd e) colors) l ->
     ((exists img, draw_box_on_image files (Some path) l = inr img) <->
      drawable files W H l) /\
     (forall img, draw_box_on_image files (Some path) l = inr img ->
        width img = W /\ height img = H /\
        List.length (drawn img) = (2 * List.length (boxes l))%nat)).
Proof.
  split; [reflexivity|]. split; [|split].
  - intros path Hnone. unfold draw_box_on_image, Image_open. now rewrite Hnone.
  - intros path [Hf|Hf]; unfold draw_box_on_image, Image_open; now rewrite Hf.
  - intros path W H Hfile _.
    unfold draw_box_on_image, Image_open, drawable. rewrite Hfile.
    cbn [bind ret]. unfold origin. cbn [width height].
    destruct (W <? H)%Z; cbn [fst snd]; cbv zeta.
    all: split; [split|].
    all: try (intros [img Hrun];
              destruct (draw_entries_needs _ _ _ _ _ _ _ Hrun) as [Hl [Hc Hup]];
              split; [exact Hl|]; intros Hb; split; [now apply Hc | exact Hup]).
    all: try (intros [Hl Hd]; eexists; apply draw_entries_returns;
              [exact Hl | intros Hb; now apply Hd
              | destruct (boxes l) eqn:Hb; [constructor | apply Hd; discriminate]]).
    all: intros img Hrun;
      destruct (draw_entries_needs _ _ _ _ _ _ _ Hrun) as [Hl [Hc Hup]];
      rewrite (draw_entries_returns _ _ _ _ l Hl Hc Hup) in Hrun;
      injection Hrun as <-; cbn [width height drawn app];
      (split; [reflexivity|]); (split; [reflexivity|]);
      clear; unfold boxes;
      induction l as [|[[name points] color] l IH]; [reflexivity|];
      cbn [flat_map fst snd entry_ops]; rewrite !length_app, IH;
      generalize (quads points); intros qs;
      induction qs as [|[[[x1 y1] x2] y2] qs IHq]; [reflexivity|];
      cbn [flat_map box_ops List.length app] in *; lia.
Qed.

Lemma drawing_needs_whole_upright_boxes_witness :
  (exists img,
      draw_box_on_image (Samples.one_picture 640 480) (Some "cat.png")
        [("cat", [0; 0; 1 # 2; 1 # 2], "red")] = inr img) /\
  ~ (exists img,
        draw_box_on_image (Samples.one_picture 640 480) (Some "cat.png")
          [("cat", [0; 0; 1 # 2; 1 # 2], "red");
           ("dog", [1 # 2; 1 # 2; 1], "blue")] = inr img) /\
  ~ (exists img,
        draw_box_on_image (Samples.one_picture 640 480) (Some "cat.png")
          [("cat", [1 # 2; 0; 1 # 4; 1 # 2], "red")] = inr img) /\
  draw_box_on_image (fun _ => Some Other) (Some "notes.txt") [] =
    inl UnidentifiedImageError.
Proof.
  pose proof (fun l Hcol =>
    proj1 (proj2 (proj2 (proj2
      (drawing_needs_whole_upright_boxes (Samples.one_picture 640 480) l)))
      "cat.png" 640%Z 480%Z eq_refl Hcol)) as Hiff.
  assert (forall name points,
             (fun e : Entry => In (snd e) colors) (name, points, "red")) as Hred
      by (intros; now left).
  assert (forall name points,
             (fun e : Entry => In (snd e) colors) (name, points, "blue")) as Hblue
      by (intros; right; now left).
  split; [|split; [|split]].
  - apply (Hiff [("cat", [0; 0; 1 # 2; 1 # 2], "red")]);
      [constructor; [apply Hred | constructor]|].
    split.
    + constructor; [now exists 1%nat | constructor].
    + intros _. split; [repeat split|].
      constructor; [split; reflexivity | constructor].
  - intros Hrun. apply Hiff in Hrun;
      [|constructor; [apply Hred | constructor; [apply Hblue | constructor]]].
    unfold drawable in Hrun. cbv zeta in Hrun. destruct Hrun as [Hl _].
    inversion Hl as [|? ? _ H2]; subst.
    inversion H2 as [|? ? [n Hn] _]; subst. cbn in Hn. lia.
  - intros Hrun. apply Hiff in Hrun;
      [|constructor; [apply Hred | constructor]].
    unfold drawable in Hrun. cbv zeta in Hrun. destruct Hrun as [_ Hd].
    destruct (Hd ltac:(discriminate)) as [_ Hup].
    apply Forall_inv in Hup. unfold upright in Hup. destruct Hup as [Hx _].
    vm_compute in Hx. discriminate.
  - exact (proj1 (proj2 (proj2
             (drawing_needs_whole_upright_boxes (fun _ => Some Other) [])))
             "notes.txt" (or_intror eq_refl)).
Defined.

(** The letterbox offset centres the picture in the square of side
    [max(W, H)]: neither offset is negative, the offset along the longer
    side is 0, and twice the offset along the shorter side fills the square
    up to at most one pixel. *)
Theorem letterbox_centres_picture (img : Image) :
  let max_edge := Z.max (width img) (height img) in
  let x_origin := fst (origin img) in
  let y_origin := snd (origin img) in
  (0 <= x_origin /\ 0 <= y_origin)%Z /\
  (x_origin = 0 \/ y_origin = 0)%Z /\
  (0 <= max_edge - (width img + 2 * x_origin) <= 1)%Z /\
  (0 <= max_edge - (height img + 2 * y_origin) <= 1)%Z.
Proof.
  cbv zeta. unfold origin.
  destruct (Z.ltb_spec (width img) (height img)); cbn [fst snd].
  - pose proof (Z.div_mod (height img - width img) 2 ltac:(lia)).
    pose proof (Z.mod_pos_bound (height img - width img) 2 ltac:(lia)).
    repeat split; try lia; now left + right.
  - pose proof (Z.div_mod (width img - height img) 2 ltac:(lia)).
    pose proof (Z.mod_pos_bound (width img - height img) 2 ltac:(lia)).
    repeat split; try lia; now left + right.
Qed.

End BoxCoverage.

(** ** The steps of the training loop *)

Section EngineCoverage.
Import Py Engine.

Variable Tensor : Type.
Variable add : Tensor -> Tensor -> Tensor.
Variable scale : Tensor -> Q -> Tensor.
Variable div_int : Tensor -> Z -> Tensor.
Variable item : Tensor -> PyFloat.
Variable any_isinf : Tensor -> bool.
Variable Batch : Type.
Variable model : Batch -> ModelOutput Tensor.
Variable loss_scaler : Tensor -> bool -> option Q -> option Tensor.

Let step := train_step Tensor add scale div_int item any_isinf Batch model
                       loss_scaler.
Let epoch_run := train_one_epoch Tensor add scale div_int item any_isinf Batch
                                 model loss_scaler.

(** The learning rate is adjusted on the first step of a window. *)
Let adjusted (args : Args) (data_iter_step : Z) : list (Effect Tensor Batch) :=
  if (data_iter_step mod accum_iter args =? 0)%Z
  then [AdjustLearningRate data_iter_step] else [].

Let logged (args : Args) (data_iter_step : Z) : list (Effect Tensor Batch) :=
  if ((data_iter_step + 1) mod log_steps args =? 0)%Z
  then [LogMetrics data_iter_step] else [].

Let scaled_loss (args : Args) (dpo_loss : Tensor) (batch_data : Batch) : Tensor :=
  div_int (total_loss Tensor add scale dpo_loss (model batch_data))
          (accum_iter args).

Let clip_of (args : Args) : option Q :=
  if Qle_bool (clip_grad args) 0 then None else Some (clip_grad args).

(** A wrong configuration stops the first step before the model is called:
    with [accum_iter = 0] the step raises [ZeroDivisionError] at once, and
    with a precision other than ["bf16"], ["fp16"] and ["tf32"] it raises
    [KeyError]; in both cases there is no forward pass. *)
Theorem bad_configuration_stops_before_forward
        (args : Args) (epoch data_iter_step : Z) (batch_data : Batch) :
  (accum_iter args = 0%Z ->
   step args epoch data_iter_step batch_data
     = ([], inl (Raise ZeroDivisionError))) /\
  (accum_iter args <> 0%Z ->
   precision args <> "bf16" -> precision args <> "fp16" ->
   precision args <> "tf32" ->
   step args epoch data_iter_step batch_data
     = (adjusted args data_iter_step, inl (Raise KeyError))).
Proof.
  split.
  - intros H0. unfold step, train_step, modulo. now rewrite H0.
  - intros Hacc H1 H2 H3. unfold step, train_step, adjusted. cbv zeta.
    rewrite (modulo_value _ _ Hacc). unfold autocast_ctx.
    rewrite (proj2 (String.eqb_neq _ _) H1), (proj2 (String.eqb_neq _ _) H2),
      (proj2 (String.eqb_neq _ _) H3).
    cbv [lift andThen when emit pure orb raise].
    destruct (data_iter_step mod accum_iter args =? 0)%Z; reflexivity.
Qed.

(** A step that does not close an accumulation window: the loss is scaled
    and back-propagated without an optimizer update, the gradients are not
    zeroed, and no checkpoint is saved, whatever the checkpoint interval. *)
Theorem accumulating_step_keeps_gradients
        (args : Args) (epoch data_iter_step : Z) (batch_data : Batch)
        (dpo_loss : Tensor) :
  accum_iter args <> 0%Z ->
  ((data_iter_step + 1) mod accum_iter args <> 0)%Z ->
  autocast_ctx (precision args) = inr tt ->
  lookup "loss" (dpo_output (model batch_data)) = inr dpo_loss ->
  isfinite (item (total_loss Tensor add scale dpo_loss (model batch_data)))
    = true ->
  log_steps args <> 0%Z ->
  step args epoch data_iter_step batch_data =
    ((adjusted args data_iter_step
      ++ [Forward batch_data;
          ScaleAndStep (scaled_loss args dpo_loss batch_data) false (clip_of args);
          Synchronize; MeterUpdate (item dpo_loss)]
      ++ logged args data_iter_step)%list,
     inr tt).
Proof.
  intros Hacc Hupd Hctx Hloss Hfin Hlog.
  unfold step, train_step, adjusted, logged, scaled_loss, clip_of, save_guard.
  cbv zeta. rewrite !modulo_value by assumption.
  rewrite !floordiv_value by assumption. rewrite Hctx, Hloss.
  cbv [lift andThen when emit pure sys_exit bind ret].
  rewrite Hfin, (proj2 (Z.eqb_neq _ _) Hupd). cbn [negb].
  destruct (data_iter_step mod accum_iter args =? 0)%Z;
    destruct ((data_iter_step + 1) mod log_steps args =? 0)%Z; reflexivity.
Qed.

(** An update step for which [loss_scaler] returns no gradient norm fails
    the assertion, after the call that has updated the optimizer and before
    the gradients are zeroed. *)
Theorem update_without_norm_fails_assertion
        (args : Args) (epoch data_iter_step : Z) (batch_data : Batch)
        (dpo_loss : Tensor) :
  accum_iter args <> 0%Z ->
  ((data_iter_step + 1) mod accum_iter args = 0)%Z ->
  autocast_ctx (precision args) = inr tt ->
  lookup "loss" (dpo_output (model batch_data)) = inr dpo_loss ->
  isfinite (item (total_loss Tensor add scale dpo_loss (model batch_data)))
    = true ->
  loss_scaler (scaled_loss args dpo_loss batch_data) true (clip_of args) = None ->
  step args epoch data_iter_step batch_data =
    ((adjusted args data_iter_step
      ++ [Forward batch_data;
          ScaleAndStep (scaled_loss args dpo_loss batch_data) true (clip_of args)])%list,
     inl (Raise AssertionError)).
Proof.
  intros Hacc Hupd Hctx Hloss Hfin Hnorm.
  unfold step, train_step, adjusted, scaled_loss, clip_of in *.
  cbv zeta. rewrite !modulo_value by assumption. rewrite Hctx, Hloss.
  cbv [lift andThen when emit pure sys_exit raise].
  rewrite Hfin, Hupd. cbn [negb Z.eqb]. rewrite Hnorm.
  destruct (data_iter_step mod accum_iter args =? 0)%Z; reflexivity.
Qed.

Lemma save_schedule (x a n : Z) :
  (0 < a)%Z -> (0 < n)%Z ->
  ((x mod a =? 0) && ((x / a) mod n =? 0))%Z = (x mod (a * n) =? 0)%Z.
Proof.
  intros Ha Hn. rewrite Z.rem_mul_r by lia.
  pose proof (Z.mod_pos_bound x a Ha).
  pose proof (Z.mod_pos_bound (x / a) n Hn).
  destruct (Z.eqb_spec (x mod a) 0) as [E1|E1];
    destruct (Z.eqb_spec ((x / a) mod n) 0) as [E2|E2];
    destruct (Z.eqb_spec (x mod a + a * ((x / a) mod n)) 0) as [E3|E3];
    cbn [andb]; try reflexivity; nia.
Qed.

(** When the checkpoints are saved. With
    [0 < accum_iter <= save_iteration_interval], a step that runs to its end
    saves a checkpoint exactly when the number of steps done is a multiple
    of [accum_iter * (save_iteration_interval // accum_iter)]: the interval
    asked for, rounded down to a whole number of accumulation windows. The
    gradient norm [g] is what [loss_scaler] returns on an update step; on
    the other steps nothing is asked of what it returns. *)
Theorem checkpoint_every_whole_window
        (args : Args) (epoch data_iter_step : Z) (batch_data : Batch)
        (dpo_loss g : Tensor) :
  let every := (accum_iter args
                * (save_iteration_interval args / accum_iter args))%Z in
  let update_grad := ((data_iter_step + 1) mod accum_iter args =? 0)%Z in
  (0 < accum_iter args <= save_iteration_interval args)%Z ->
  autocast_ctx (precision args) = inr tt ->
  lookup "loss" (dpo_output (model batch_data)) = inr dpo_loss ->
  isfinite (item (total_loss Tensor add scale dpo_loss (model batch_data)))
    = true ->
  (update_grad = true ->
   loss_scaler (scaled_loss args dpo_loss batch_data) true (clip_of args)
     = Some g) ->
  log_steps args <> 0%Z ->
  (0 < every <= save_iteration_interval args)%Z /\
  save_guard args data_iter_step update_grad
    = inr ((data_iter_step + 1) mod every =? 0)%Z /\
  step args epoch data_iter_step batch_data =
    ((adjusted args data_iter_step
      ++ [Forward batch_data;
          ScaleAndStep (scaled_loss args dpo_loss batch_data) update_grad
                       (clip_of args)]
      ++ (if update_grad
          then [if any_isinf g then PrintGradInf else MeterGradNorm g; ZeroGrad]
          else [])
      ++ [Synchronize; MeterUpdate (item dpo_loss)]
      ++ logged args data_iter_step
      ++ (if ((data_iter_step + 1) mod every =? 0)%Z
          then [SaveCheckpoint epoch data_iter_step] else []))%list,
     inr tt).
Proof.
  intros every update_grad Hcfg Hctx Hloss Hfin Hnorm Hlog.
  assert (0 < save_iteration_interval args / accum_iter args)%Z as Hn
      by (apply Z.div_str_pos; lia).
  assert (save_guard args data_iter_step update_grad
          = inr ((data_iter_step + 1) mod every =? 0)%Z) as Hguard.
  { unfold save_guard, every, update_grad.
    rewrite !floordiv_value by lia. cbn [bind].
    rewrite <- save_schedule by lia.
    destruct ((data_iter_step + 1) mod accum_iter args =? 0)%Z; cbn [andb];
      [|reflexivity].
    now rewrite modulo_value by lia. }
  split; [|split; [exact Hguard|]].
  - unfold every. split; [nia|].
    pose proof (Z.mul_div_le (save_iteration_interval args) (accum_iter args)).
    lia.
  - unfold step, train_step, adjusted, logged. cbv zeta.
    unfold scaled_loss, clip_of, update_grad in Hnorm.
    unfold update_grad in Hguard |- *.
    rewrite !modulo_value by lia. rewrite Hctx, Hloss.
    cbv [lift andThen when emit pure sys_exit].
    rewrite Hfin, Hguard. cbn [negb].
    destruct ((data_iter_step + 1) mod accum_iter args =? 0)%Z.
    + rewrite (Hnorm eq_refl).
      destruct (data_iter_step mod accum_iter args =? 0)%Z;
        destruct ((data_iter_step + 1) mod log_steps args =? 0)%Z;
        destruct ((data_iter_step + 1) mod every =? 0)%Z;
        destruct (any_isinf g); reflexivity.
    + destruct (data_iter_step mod accum_iter args =? 0)%Z;
        destruct ((data_iter_step + 1) mod log_steps args =? 0)%Z;
        destruct ((data_iter_step + 1) mod every =? 0)%Z; reflexivity.
Qed.

End EngineCoverage.

Section EngineCoverageRun.
Import Py Engine Samples.

Lemma bad_configuration_stops_before_forward_witness :
  train_step PyFloat (fun a _ => a) (fun a _ => a) (fun a _ => a) (fun a => a)
             (fun a => negb (isfinite a)) PyFloat toy_model toy_scaler
             (mkArgs 0 "bf16" 0 10 4) 0 0 (Finite 1)
    = ([], inl (Raise ZeroDivisionError)) /\
  train_step PyFloat (fun a _ => a) (fun a _ => a) (fun a _ => a) (fun a => a)
             (fun a => negb (isfinite a)) PyFloat toy_model toy_scaler
             (mkArgs 2 "fp32" 0 10 4) 0 0 (Finite 1)
    = ([AdjustLearningRate 0], inl (Raise KeyError)).
Proof.
  split.
  - exact (proj1 (bad_configuration_stops_before_forward PyFloat (fun a _ => a)
                    (fun a _ => a) (fun a _ => a) (fun a => a)
                    (fun a => negb (isfinite a)) PyFloat toy_model toy_scaler
                    (mkArgs 0 "bf16" 0 10 4) 0 0 (Finite 1)) eq_refl).
  - refine (proj2 (bad_configuration_stops_before_forward PyFloat (fun a _ => a)
                     (fun a _ => a) (fun a _ => a) (fun a => a)
                     (fun a => negb (isfinite a)) PyFloat toy_model toy_scaler
                     (mkArgs 2 "fp32" 0 10 4) 0 0 (Finite 1)) _ _ _ _);
      discriminate.
Defined.

Lemma accumulating_step_keeps_gradients_witness :
  train_step PyFloat (fun a _ => a) (fun a _ => a) (fun a _ => a) (fun a => a)
             (fun a => negb (isfinite a)) PyFloat toy_model toy_scaler
             (toy_args 2 1) 0 0 (Finite 1)
    = ([AdjustLearningRate 0; Forward (Finite 1);
        ScaleAndStep (Finite 1) false None; Synchronize;
        MeterUpdate (Finite 1)], inr tt).
Proof.
  refine (accumulating_step_keeps_gradients PyFloat (fun a _ => a)
            (fun a _ => a) (fun a _ => a) (fun a => a)
            (fun a => negb (isfinite a)) PyFloat toy_model toy_scaler
            (toy_args 2 1) 0 0 (Finite 1) (Finite 1) _ _ _ _ _ _);
    try reflexivity; discriminate.
Defined.

Lemma update_without_norm_fails_assertion_witness :
  train_step PyFloat (fun a _ => a) (fun a _ => a) (fun a _ => a) (fun a => a)
             (fun a => negb (isfinite a)) PyFloat toy_model
             (fun _ _ _ => None) (toy_args 1 1) 0 0 (Finite 1)
    = ([AdjustLearningRate 0; Forward (Finite 1);
        ScaleAndStep (Finite 1) true None], inl (Raise AssertionError)).
Proof.
  refine (update_without_norm_fails_assertion PyFloat (fun a _ => a)
            (fun a _ => a) (fun a _ => a) (fun a => a)
            (fun a => negb (isfinite a)) PyFloat toy_model (fun _ _ _ => None)
            (toy_args 1 1) 0 0 (Finite 1) (Finite 1) _ _ _ _ _ _);
    try reflexivity; discriminate.
Defined.

Lemma checkpoint_every_whole_window_witness :
  train_step PyFloat (fun a _ => a) (fun a _ => a) (fun a _ => a) (fun a => a)
             (fun a => negb (isfinite a)) PyFloat toy_model toy_scaler
             (toy_args 2 5) 0 3 (Finite 1)
    = ([Forward (Finite 1); ScaleAndStep (Finite 1) true None;
        MeterGradNorm (Finite 1); ZeroGrad; Synchronize;
        MeterUpdate (Finite 1); SaveCheckpoint 0 3], inr tt) /\
  train_step PyFloat (fun a _ => a) (fun a _ => a) (fun a _ => a) (fun a => a)
             (fun a => negb (isfinite a)) PyFloat toy_model toy_scaler
             (toy_args 2 5) 0 4 (Finite 1)
    = ([AdjustLearningRate 4; Forward (Finite 1);
        ScaleAndStep (Finite 1) false None; Synchronize;
        MeterUpdate (Finite 1)], inr tt).
Proof.
  split.
  - refine (proj2 (proj2 (checkpoint_every_whole_window PyFloat (fun a _ => a)
              (fun a _ => a) (fun a _ => a) (fun a => a)
              (fun a => negb (isfinite a)) PyFloat toy_model toy_scaler
              (toy_args 2 5) 0 3 (Finite 1) (Finite 1) (Finite 1)
              _ _ _ _ _ _)));
      try reflexivity; try discriminate. cbn. lia.
  - refine (proj2 (proj2 (checkpoint_every_whole_window PyFloat (fun a _ => a)
              (fun a _ => a) (fun a _ => a) (fun a => a)
              (fun a => negb (isfinite a)) PyFloat toy_model toy_scaler
              (toy_args 2 5) 0 4 (Finite 1) (Finite 1) (Finite 1)
              _ _ _ _ _ _)));
      try reflexivity; try discriminate. cbn. lia.
Defined.

(** With [accum_iter = 2] and an interval of 5, checkpoints come every 4
    steps. *)
Example checkpoints_every_four_steps :
  map (fun s => save_guard (toy_args 2 5) s (((s + 1) mod 2 =? 0)%Z))
      [0; 1; 2; 3; 4; 5; 6; 7]%Z =
  map inr [false; false; false; true; false; false; false; true].
Proof. reflexivity. Qed.

End EngineCoverageRun.
